(** * ChatInterface: the streaming chat component of SSU_RAG

    A shallow embedding of [ChatInterface.jsx] (the session-id initializer
    and [sendMessage] with its read loop, buffer framer and frame
    dispatch), and the properties of the transcript it maintains.

    JavaScript strings are sequences of UTF-16 code units, the response
    body is a sequence of byte chunks, and the React state [messages] is a
    store that [setMessages] updates; exceptions are explicit. *)

From Stdlib Require Import String Ascii.
From Stdlib Require Import List ZArith NArith Bool Lia.
From Stdlib Require Import Floats.SpecFloat.
From Equations Require Import Equations.
From Equations.Prop Require Import Logic.
Import ListNotations.

Set Warnings "-register-all".

Open Scope Z_scope.

(** ** JavaScript strings *)

Module JsString.

(** A string is its list of UTF-16 code units. *)
Definition jsstring := list N.

(** A literal of the source, written in ASCII. *)
Definition lit (s : string) : jsstring :=
  List.map N_of_ascii (list_ascii_of_string s).

(** [s.startsWith(pat)] *)
Fixpoint startsWith (s pat : jsstring) {struct pat} : bool :=
  match pat, s with
  | [], _ => true
  | p :: pat', c :: s' => N.eqb c p && startsWith s' pat'
  | _ :: _, [] => false
  end.

(** [s.indexOf(pat)]: the first position at which [pat] occurs, [None]
    for -1. *)
Fixpoint indexOf (s pat : jsstring) : option nat :=
  if startsWith s pat then Some 0%nat
  else match s with
       | [] => None
       | _ :: s' => option_map S (indexOf s' pat)
       end.

(** [s.slice(from)] and [s.slice(0, to)] for the non-negative arguments
    the component passes; both clamp at the end of the string. *)
Definition slice_from (from : nat) (s : jsstring) : jsstring := skipn from s.
Definition slice_to (to : nat) (s : jsstring) : jsstring := firstn to s.

(** The code units [String.prototype.trim] strips: WhiteSpace and
    LineTerminator of ECMAScript. *)
Definition is_space (c : N) : bool :=
  ((9 <=? c) && (c <=? 13) || (c =? 32) || (c =? 160) || (c =? 5760)
   || (8192 <=? c) && (c <=? 8202) || (c =? 8232) || (c =? 8233)
   || (c =? 8239) || (c =? 8287) || (c =? 12288) || (c =? 65279))%N.

Fixpoint trimStart (s : jsstring) : jsstring :=
  match s with
  | c :: s' => if is_space c then trimStart s' else s
  | [] => []
  end.

Definition trimEnd (s : jsstring) : jsstring := rev (trimStart (rev s)).

Definition trim (s : jsstring) : jsstring := trimEnd (trimStart s).

(** A string is falsy exactly when it is empty. *)
Definition is_empty (s : jsstring) : bool :=
  match s with [] => true | _ :: _ => false end.

Fixpoint eqb (a b : jsstring) : bool :=
  match a, b with
  | [], [] => true
  | x :: a', y :: b' => N.eqb x y && eqb a' b'
  | _, _ => false
  end.

End JsString.
Import JsString.

(** ** TextDecoder('utf-8') in streaming mode

    [decoder.decode(value, { stream: true })] runs the UTF-8 decoder of the
    Encoding Standard over the bytes of the chunk and keeps its state for
    the next call: an incomplete multi-byte sequence at the end of a chunk
    stays pending.  Malformed input is replaced by U+FFFD (the decoder is
    not fatal) and a leading byte order mark is dropped. *)

Module Utf8.

Record decoder := {
  code_point : N;
  bytes_seen : N;
  bytes_needed : N;
  lower_boundary : N;
  upper_boundary : N;
  bom_seen : bool
}.

(** [new TextDecoder('utf-8')] *)
Definition fresh : decoder :=
  {| code_point := 0; bytes_seen := 0; bytes_needed := 0;
     lower_boundary := 128; upper_boundary := 191; bom_seen := false |}.

Definition reset (d : decoder) : decoder :=
  {| code_point := 0; bytes_seen := 0; bytes_needed := 0;
     lower_boundary := 128; upper_boundary := 191; bom_seen := bom_seen d |}.

Definition in_range (lo hi b : N) : bool := ((lo <=? b) && (b <=? hi))%N.

(** The handler on a byte when no sequence is pending: a code point, a
    replacement character, or the start of a sequence. *)
Definition lead (d : decoder) (b : N) : decoder * list N :=
  if in_range 0 127 b then (d, [b])
  else if in_range 194 223 b then
    ({| code_point := N.land b 31; bytes_seen := 0; bytes_needed := 1;
        lower_boundary := 128; upper_boundary := 191;
        bom_seen := bom_seen d |}, [])
  else if in_range 224 239 b then
    ({| code_point := N.land b 15; bytes_seen := 0; bytes_needed := 2;
        lower_boundary := if (b =? 224)%N then 160 else 128;
        upper_boundary := if (b =? 237)%N then 159 else 191;
        bom_seen := bom_seen d |}, [])
  else if in_range 240 244 b then
    ({| code_point := N.land b 7; bytes_seen := 0; bytes_needed := 3;
        lower_boundary := if (b =? 240)%N then 144 else 128;
        upper_boundary := if (b =? 244)%N then 143 else 191;
        bom_seen := bom_seen d |}, [])
  else (d, [65533%N]).

(** The handler on one byte: the code points it completes. *)
Definition handler (d : decoder) (b : N) : decoder * list N :=
  if (bytes_needed d =? 0)%N then lead d b
  else if negb (in_range (lower_boundary d) (upper_boundary d) b) then
    (* the sequence is broken: U+FFFD, and the byte is read again *)
    let (d', out) := lead (reset d) b in (d', 65533%N :: out)
  else
    let cp := N.lor (N.shiftl (code_point d) 6) (N.land b 63) in
    let seen := (bytes_seen d + 1)%N in
    if (seen =? bytes_needed d)%N then (reset d, [cp])
    else ({| code_point := cp; bytes_seen := seen;
             bytes_needed := bytes_needed d;
             lower_boundary := 128; upper_boundary := 191;
             bom_seen := bom_seen d |}, []).

(** A code point as UTF-16 code units. *)
Definition units_of_code_point (cp : N) : jsstring :=
  if (cp <=? 65535)%N then [cp]
  else let c := (cp - 65536)%N in
       [(55296 + N.shiftr c 10)%N; (56320 + N.land c 1023)%N].

(** Output of the code points of one byte: the first code point of the
    stream is dropped when it is the byte order mark. *)
Fixpoint emit (seen : bool) (cps : list N) : bool * jsstring :=
  match cps with
  | [] => (seen, [])
  | cp :: rest =>
      let (seen', out) := emit true rest in
      if negb seen && (cp =? 65279)%N then (seen', out)
      else (seen', units_of_code_point cp ++ out)
  end.

Definition with_bom_seen (d : decoder) (seen : bool) : decoder :=
  {| code_point := code_point d; bytes_seen := bytes_seen d;
     bytes_needed := bytes_needed d; lower_boundary := lower_boundary d;
     upper_boundary := upper_boundary d; bom_seen := seen |}.

Definition decode_byte (d : decoder) (b : Byte.byte) : decoder * jsstring :=
  let (d', cps) := handler d (Byte.to_N b) in
  let (seen, out) := emit (bom_seen d') cps in
  (with_bom_seen d' seen, out).

(** [decoder.decode(value, { stream: true })] *)
Fixpoint decode (d : decoder) (value : list Byte.byte) : decoder * jsstring :=
  match value with
  | [] => (d, [])
  | b :: rest =>
      let (d1, out1) := decode_byte d b in
      let (d2, out2) := decode d1 rest in
      (d2, out1 ++ out2)
  end.

End Utf8.

(** ** JavaScript values, as far as the component handles them *)

Module Js.

(** What [JSON.parse] returns, and [undefined] for an absent property.  A
    number is an IEEE 754 double. *)
Inductive value :=
| Undefined
| Null
| Bool (b : bool)
| Num (x : spec_float)
| Str (s : jsstring)
| Arr (items : list value)
| Obj (fields : list (jsstring * value)).

(** ToBoolean *)
Definition truthy (v : value) : bool :=
  match v with
  | Undefined | Null => false
  | Bool b => b
  | Num (S754_zero _) | Num S754_nan => false
  | Num _ => true
  | Str s => negb (is_empty s)
  | Arr _ | Obj _ => true
  end.

(** [a || b] *)
Definition or_else (a b : value) : value := if truthy a then a else b.

(** [v === 'literal'] *)
Definition is_string (v : value) (s : jsstring) : bool :=
  match v with
  | Str t => JsString.eqb t s
  | _ => false
  end.

Fixpoint lookup (k : jsstring) (fields : list (jsstring * value)) : value :=
  match fields with
  | [] => Undefined
  | (k', v) :: rest => if JsString.eqb k' k then v else lookup k rest
  end.

(** What the code throws. *)
Inductive exn :=
| SyntaxError      (* JSON.parse *)
| TypeError        (* a property of null *)
| StreamOpenError  (* new Error('스트림을 열 수 없습니다.') *)
| TransportError.  (* fetch or reader.read() rejected *)

Inductive completion (A : Type) :=
| Normal (a : A)
| Throw (e : exn).
Arguments Normal {A} a.
Arguments Throw {A} e.

(** [v.k] for the properties the component reads ([type], [content],
    [sources], [answer]; no prototype defines them): a property of [null]
    or [undefined] throws, a primitive or an array has none of them. *)
Definition member (v : value) (k : jsstring) : completion value :=
  match v with
  | Undefined | Null => Throw TypeError
  | Obj fields => Normal (lookup k fields)
  | _ => Normal Undefined
  end.

(** The same property where the access cannot throw. *)
Definition prop (v : value) (k : jsstring) : value :=
  match member v k with
  | Normal x => x
  | Throw _ => Undefined
  end.

End Js.
Import Js.

(** ** Messages and the React state *)

Inductive role_name := user | assistant.

(** A message of the transcript.  [sources] is [Undefined] where the
    object has no such field; [timestamp] is the clock reading of
    [new Date()]. *)
Record message := {
  id : Z;
  text : value;
  role : role_name;
  sources : value;
  timestamp : Z
}.

(** [{ ...m, text: t }] and [{ ...m, sources: s }] *)
Definition with_text (m : message) (t : value) : message :=
  {| id := id m; text := t; role := role m; sources := sources m;
     timestamp := timestamp m |}.
Definition with_sources (m : message) (s : value) : message :=
  {| id := id m; text := text m; role := role m; sources := s;
     timestamp := timestamp m |}.

(** The [messages] state of the component. *)
Definition transcript := list message.

(** ** Computations: state updates and exceptions *)

Definition M (A : Type) : Type := transcript -> completion A * transcript.

Definition ret {A} (a : A) : M A := fun st => (Normal a, st).

Definition bind {A B} (c : M A) (k : A -> M B) : M B :=
  fun st => match c st with
            | (Normal a, st') => k a st'
            | (Throw e, st') => (Throw e, st')
            end.

Definition throw {A} (e : exn) : M A := fun st => (Throw e, st).

(** [try { c } catch (e) { h e }] *)
Definition try_catch {A} (c : M A) (h : exn -> M A) : M A :=
  fun st => match c st with
            | (Normal a, st') => (Normal a, st')
            | (Throw e, st') => h e st'
            end.

Definition lift {A} (c : completion A) : M A := fun st => (c, st).

(** [setMessages(updater)]: the updates of one run are applied in the
    order they are queued. *)
Definition setMessages (updater : transcript -> transcript) : M unit :=
  fun st => (Normal tt, updater st).

Notation "x <- c ;; k" := (bind c (fun x => k))
  (at level 61, c at next level, right associativity).
Notation "c ;;; k" := (bind c (fun _ => k))
  (at level 61, right associativity).

(** The transcript a computation leaves. *)
Definition exec {A} (c : M A) (st : transcript) : transcript := snd (c st).
Definition outcome {A} (c : M A) (st : transcript) : completion A := fst (c st).

(** ** The session-id initializer *)

Module Session.

(** What one run of the initializer reads from the platform:
    [window.crypto.randomUUID()] where it exists, and the string
    [Math.random().toString(36)], which is ["0"] for a draw of 0 and
    ["0."] followed by base-36 digits otherwise. *)
Record platform := {
  randomUUID : option jsstring;
  random_base36 : jsstring
}.

(** The item ['ssu_rag_session_id'] of [localStorage]; [getItem] returns
    [null] where there is none. *)
Definition storage := option jsstring.

Definition newId (p : platform) : jsstring :=
  match randomUUID p with
  | Some uuid => uuid
  | None => slice_from 2 (random_base36 p)
  end.

(** The initializer of [sessionId]: the id it returns and the storage it
    leaves. *)
Definition initSessionId (p : platform) (st : storage) : jsstring * storage :=
  match st with
  | Some existing =>
      if negb (is_empty existing) then (existing, st)
      else (newId p, Some (newId p))
  | None => (newId p, Some (newId p))
  end.

(** Successive runs of the initializer, each with its own draws. *)
Fixpoint initSessionId_runs (ps : list platform) (st : storage)
  : list jsstring * storage :=
  match ps with
  | [] => ([], st)
  | p :: rest =>
      let (sid, st1) := initSessionId p st in
      let (sids, st2) := initSessionId_runs rest st1 in
      (sid :: sids, st2)
  end.

(** The draws of a run give a non-empty id: the UUID is not empty, or
    the rendering of the random number has digits after ["0."]. *)
Definition usable_draw (p : platform) : bool :=
  match randomUUID p with
  | Some uuid => negb (is_empty uuid)
  | None => (2 <? List.length (random_base36 p))%nat
  end.

End Session.

(** ** sendMessage *)

(** The frame boundary ['\n\n'] and the payload marker ['data: ']. *)
Definition boundary : jsstring := [10%N; 10%N].
Definition marker : jsstring := lit "data: ".

(** ['오류가 발생했습니다. 다시 시도해주세요.'] *)
Definition errorText : jsstring :=
  [50724; 47448; 44032; 32; 48156; 49373; 54664; 49845; 45768; 45796; 46;
   32; 45796; 49884; 32; 49884; 46020; 54644; 51452; 49464; 50836; 46]%N.

(** The clock readings of one run, in the order the code takes them:
    [Date.now()] and [new Date()] for the user message, for the
    placeholder, and in the catch block. *)
Record clock := {
  now_user : Z;
  date_user : Z;
  now_ai : Z;
  date_ai : Z;
  now_error : Z;
  date_error : Z
}.

(** How the stream ends: [reader.read()] reports [done], or rejects. *)
Inductive stream_end := Done | ReadRejects.

(** What [fetch] brings: it rejects, or it resolves to a response whose
    [body] is null or yields chunks. *)
Inductive response :=
| FetchRejects
| NoBody
| Body (chunks : list (list Byte.byte)) (last : stream_end).

Definition userMessage (text : jsstring) (clk : clock) : message :=
  {| id := now_user clk; text := Str text; role := user;
     sources := Undefined; timestamp := date_user clk |}.

(** [{ id: aiId, text: '', role: 'assistant', sources: [], timestamp }] *)
Definition placeholder (aiId date : Z) : message :=
  {| id := aiId; text := Str []; role := assistant; sources := Arr [];
     timestamp := date |}.

Definition errorMessage (now date : Z) : message :=
  {| id := now + 1; text := Str errorText; role := assistant;
     sources := Undefined; timestamp := date |}.

(** ** Frames *)

(** The frames of a buffer: the texts before each boundary in turn, and
    what is left after the last one. *)
Equations? split_frames (buffer : jsstring) : list jsstring * jsstring
  by wf (List.length buffer) lt :=
  split_frames buffer with inspect (indexOf buffer boundary) := {
    | exist _ None _ => ([], buffer)
    | exist _ (Some idx) found =>
        let (frames, rest) := split_frames (slice_from (idx + 2) buffer) in
        (slice_to idx buffer :: frames, rest) }.
Proof.
  destruct buffer as [|c buffer]; [discriminate found|].
  unfold slice_from. rewrite length_skipn. cbn [List.length]. lia.
Qed.

(** The text a decoder yields for the chunks of a body. *)
Definition received (decoder : Utf8.decoder) (chunks : list (list Byte.byte))
  : jsstring :=
  snd (Utf8.decode decoder (concat chunks)).

(** Frames on the wire: each is followed by a boundary. *)
Definition wire (frames : list jsstring) : jsstring :=
  concat (List.map (fun frame => frame ++ boundary) frames).

(** A text the framer cuts exactly at the boundary that follows it. *)
Definition delimited (frame : jsstring) : bool :=
  match indexOf (frame ++ boundary) boundary with
  | Some idx => Nat.eqb idx (List.length frame)
  | None => false
  end.

(** ** Data of the examples *)

Module Examples.

(** A JSON string literal without escapes. *)
Definition quoted (s : string) : jsstring := 34%N :: lit s ++ [34%N].

(** The payloads [{"type":"token","content":c}] and
    [{"type":"final","answer":a}]. *)
Definition token_json (c : string) : jsstring :=
  lit "{" ++ quoted "type" ++ lit ":" ++ quoted "token" ++ lit ","
  ++ quoted "content" ++ lit ":" ++ quoted c ++ lit "}".
Definition final_json (a : string) : jsstring :=
  lit "{" ++ quoted "type" ++ lit ":" ++ quoted "final" ++ lit ","
  ++ quoted "answer" ++ lit ":" ++ quoted a ++ lit "}".

Definition token_value (c : string) : value :=
  Obj [(lit "type", Str (lit "token")); (lit "content", Str (lit c))].
Definition final_value (a : string) : value :=
  Obj [(lit "type", Str (lit "final")); (lit "answer", Str (lit a))].

(** [JSON.parse] on the texts the examples hand to it: the payloads of
    Scenario A of the specification, a one-letter token, and texts that
    are not JSON. *)
Definition parse_example (s : jsstring) : option value :=
  if JsString.eqb s (token_json "Hel") then Some (token_value "Hel")
  else if JsString.eqb s (token_json "lo") then Some (token_value "lo")
  else if JsString.eqb s (token_json "x") then Some (token_value "x")
  else if JsString.eqb s (final_json "Hello!") then Some (final_value "Hello!")
  else None.

(** The examples add strings only. *)
Definition add_example (a b : value) : value := Undefined.

(** A payload cut off in the middle: [{"type":"token",] *)
Definition truncated_json : jsstring :=
  lit "{" ++ quoted "type" ++ lit ":" ++ quoted "token" ++ lit ",".

(** The bytes of an ASCII text. *)
Definition ascii_bytes (s : jsstring) : list Byte.byte :=
  List.map (fun c => match Byte.of_N c with Some b => b | None => Byte.x00 end)
           s.

(** A clock that reads [t] every time. *)
Definition frozen (t : Z) : clock :=
  {| now_user := t; date_user := t; now_ai := t; date_ai := t;
     now_error := t; date_error := t |}.

(** The token frames of Scenario A, and all its frames. *)
Definition token_frames : list jsstring :=
  [marker ++ token_json "Hel"; marker ++ token_json "lo"].
Definition scenario_A : list jsstring :=
  token_frames ++ [marker ++ final_json "Hello!"].

(** An ASCII text in two chunks, cut after [n] bytes. *)
Definition in_two_chunks (n : nat) (s : jsstring) : list (list Byte.byte) :=
  [ascii_bytes (firstn n s); ascii_bytes (skipn n s)].

(** A draw of [Math.random()] that is 0, and one that is not; no
    [crypto.randomUUID]. *)
Definition draw_zero : Session.platform :=
  {| Session.randomUUID := None; Session.random_base36 := lit "0" |}.
Definition draw_fraction : Session.platform :=
  {| Session.randomUUID := None; Session.random_base36 := lit "0.k3v9x" |}.

End Examples.

(** ** The recommendation form *)

Module Recommend.

(** The state of [Recommend] that [handleSubmit] writes. *)
Record state := {
  loading : bool;
  results : list value
}.

(** What the request brings: [fetch] rejects, [res.json()] rejects (the
    body is not JSON), or the parsed body. *)
Inductive reply :=
| Rejected
| NotJson
| Json (data : value).

(** [Array.isArray(data.results)], with the items. *)
Definition results_of (data : value) : option (list value) :=
  match prop data (lit "results") with
  | Arr items => Some items
  | _ => None
  end.

(** [handleSubmit] up to the await of [fetch]. *)
Definition handleSubmit_begin (s : state) : state :=
  {| loading := true; results := [] |}.

(** [handleSubmit] from the answer on: the try block, the catch block and
    the finally block. *)
Definition handleSubmit_end (r : reply) (s : state) : state :=
  let s' :=
    match r with
    | Json data =>
        if truthy data then
          match results_of data with
          | Some items => {| loading := loading s; results := items |}
          | None => s
          end
        else s
    | Rejected | NotJson => s
    end in
  {| loading := false; results := results s' |}.

Definition handleSubmit (r : reply) (s : state) : state :=
  handleSubmit_end r (handleSubmit_begin s).

End Recommend.

(** ** Data of further examples *)

Module MoreExamples.
Import Examples.

(** The payloads [{"type":"meta","sources":["a"]}], [{"type":"ping"}],
    [null] and [{"type":"final","answer":""}]. *)
Definition meta_json : jsstring :=
  lit "{" ++ quoted "type" ++ lit ":" ++ quoted "meta" ++ lit ","
  ++ quoted "sources" ++ lit ":[" ++ quoted "a" ++ lit "]}".
Definition ping_json : jsstring :=
  lit "{" ++ quoted "type" ++ lit ":" ++ quoted "ping" ++ lit "}".
Definition null_json : jsstring := lit "null".
Definition empty_final_json : jsstring := final_json "".

Definition meta_value : value :=
  Obj [(lit "type", Str (lit "meta")); (lit "sources", Arr [Str (lit "a")])].
Definition ping_value : value := Obj [(lit "type", Str (lit "ping"))].

(** [JSON.parse] on these payloads and on those of [parse_example]. *)
Definition parse_more (s : jsstring) : option value :=
  if JsString.eqb s meta_json then Some meta_value
  else if JsString.eqb s ping_json then Some ping_value
  else if JsString.eqb s null_json then Some Null
  else if JsString.eqb s empty_final_json then Some (final_value "")
  else parse_example s.

(** A clock that advances by one between its readings, from [t]. *)
Definition ticking (t : Z) : clock :=
  {| now_user := t; date_user := t + 1; now_ai := t + 2; date_ai := t + 3;
     now_error := t + 4; date_error := t + 5 |}.

(** A placeholder that has accumulated the text ["Hel"]. *)
Definition partial_answer : message :=
  with_text (placeholder 6 5) (Str (lit "Hel")).

End MoreExamples.

Section Component.

(** [JSON.parse], [None] where it throws a SyntaxError. *)
Variable JSON_parse : jsstring -> option value.

(** [a + b] where an operand is not a string (numeric addition and the
    conversions to a string). *)
Variable add_mixed : value -> value -> value.

Definition js_add (a b : value) : value :=
  match a, b with
  | Str x, Str y => Str (x ++ y)
  | _, _ => add_mixed a b
  end.

Definition parse (s : jsstring) : M value :=
  match JSON_parse s with
  | Some v => ret v
  | None => throw SyntaxError
  end.

(** [prev.map(m => m.id === aiId ? patch(m) : m)] *)
Definition patch (aiId : Z) (f : message -> message) (prev : transcript)
  : transcript :=
  List.map (fun m => if id m =? aiId then f m else m) prev.

Definition applyToken (aiId : Z) (token : value) : M unit :=
  setMessages (patch aiId (fun m =>
    with_text m (js_add (or_else (text m) (Str [])) token))).

Definition applyMeta (aiId : Z) (meta : value) : M unit :=
  s <- lift (member meta (lit "sources")) ;;
  if truthy s then
    setMessages (patch aiId (fun m =>
      with_sources m (prop meta (lit "sources"))))
  else ret tt.

(** The update of the [final] branch:
    [{ ...m, text: evt.answer, sources: evt.sources || m.sources }] *)
Definition applyFinal (aiId : Z) (evt : value) : M unit :=
  setMessages (patch aiId (fun m =>
    with_sources (with_text m (prop evt (lit "answer")))
                 (or_else (prop evt (lit "sources")) (sources m)))).

(** The dispatch on [evt.type] inside the try block. *)
Definition dispatch (aiId : Z) (evt : value) : M unit :=
  ty <- lift (member evt (lit "type")) ;;
  tok <- (if is_string ty (lit "token")
          then lift (member evt (lit "content")) else ret (Bool false)) ;;
  if truthy tok then
    content <- lift (member evt (lit "content")) ;;
    applyToken aiId content
  else
    ty <- lift (member evt (lit "type")) ;;
    if is_string ty (lit "meta") then applyMeta aiId evt
    else
      ty <- lift (member evt (lit "type")) ;;
      fin <- (if is_string ty (lit "final")
              then lift (member evt (lit "answer")) else ret (Bool false)) ;;
      if truthy fin then applyFinal aiId evt else ret tt.

(** The body of the inner loop for the text before one boundary. *)
Definition process_frame (aiId : Z) (frame : jsstring) : M unit :=
  let raw := trim frame in
  if is_empty raw then ret tt
  else if startsWith raw marker then
    let jsonStr := slice_from 6 raw in
    try_catch (evt <- parse jsonStr ;; dispatch aiId evt)
              (fun _ => ret tt)
  else ret tt.

(** The inner loop: [while ((idx = buffer.indexOf('\n\n')) !== -1)].  It
    returns the buffer it leaves. *)
Equations? drain (aiId : Z) (buffer : jsstring) (st : transcript)
  : completion jsstring * transcript by wf (List.length buffer) lt :=
  drain aiId buffer st with inspect (indexOf buffer boundary) := {
    | exist _ None _ => ret buffer st
    | exist _ (Some idx) found =>
        (process_frame aiId (slice_to idx buffer) ;;;
         fun st' => drain aiId (slice_from (idx + 2) buffer) st') st }.
Proof.
  destruct buffer as [|c buffer]; [discriminate found|].
  unfold slice_from. rewrite length_skipn. cbn [List.length]. lia.
Qed.

(** The outer loop: [while (true) { const { value, done } = await
    reader.read(); ... }] over the chunks the reader yields. *)
Fixpoint read_loop (aiId : Z) (chunks : list (list Byte.byte))
    (last : stream_end) (decoder : Utf8.decoder) (buffer : jsstring)
  : M unit :=
  match chunks with
  | [] => match last with
          | Done => ret tt
          | ReadRejects => throw TransportError
          end
  | value :: rest =>
      let (decoder', decoded) := Utf8.decode decoder value in
      buffer' <- drain aiId (buffer ++ decoded) ;;
      read_loop aiId rest last decoder' buffer'
  end.

(** [await fetch(...)], the check of [res.body] and the read loop. *)
Definition stream (aiId : Z) (net : response) : M unit :=
  match net with
  | FetchRejects => throw TransportError
  | NoBody => throw StreamOpenError
  | Body chunks last => read_loop aiId chunks last Utf8.fresh []
  end.

(** [sendMessage(text)], called with the [messages] of its render. *)
Definition sendMessage (messages : transcript) (text : jsstring)
    (clk : clock) (net : response) : M unit :=
  if is_empty (trim text) then ret tt
  else
    let allMessages := messages ++ [userMessage text clk] in
    setMessages (fun _ => allMessages) ;;;
    try_catch
      (let aiId := now_ai clk + 1 in
       setMessages (fun prev => prev ++ [placeholder aiId (date_ai clk)]) ;;;
       stream aiId net)
      (fun error =>
         setMessages (fun prev =>
           prev ++ [errorMessage (now_error clk) (date_error clk)])).

(** ** What the loops compute *)

(** The frames handled one after the other. *)
Definition run_frames (aiId : Z) (frames : list jsstring) (st : transcript)
  : transcript :=
  fold_left (fun st frame => exec (process_frame aiId frame) st) frames st.

(** What the dispatch does to a message with the id of the placeholder,
    read off the parsed event. *)
Definition event_patch (evt : value) (m : message) : message :=
  match evt with
  | Obj fields =>
      let ty := lookup (lit "type") fields in
      if is_string ty (lit "token") && truthy (lookup (lit "content") fields)
      then with_text m (js_add (or_else (text m) (Str []))
                               (lookup (lit "content") fields))
      else if is_string ty (lit "meta")
      then if truthy (lookup (lit "sources") fields)
           then with_sources m (lookup (lit "sources") fields) else m
      else if is_string ty (lit "final")
              && truthy (lookup (lit "answer") fields)
      then with_sources (with_text m (lookup (lit "answer") fields))
             (or_else (lookup (lit "sources") fields) (sources m))
      else m
  | _ => m
  end.

(** The event of a frame: the parsed text after the marker, where the
    trimmed frame starts with the marker and the text parses. *)
Definition frame_event (frame : jsstring) : option value :=
  let raw := trim frame in
  if startsWith raw marker then JSON_parse (slice_from 6 raw) else None.

Definition frame_patch (frame : jsstring) (m : message) : message :=
  match frame_event frame with
  | Some evt => event_patch evt m
  | None => m
  end.

(** How the read loop ends. *)
Definition stream_outcome (last : stream_end) : completion unit :=
  match last with
  | Done => Normal tt
  | ReadRejects => Throw TransportError
  end.

(** The frames the read loop handles, chunk by chunk. *)
Fixpoint frames_read (chunks : list (list Byte.byte))
    (decoder : Utf8.decoder) (buffer : jsstring) : list jsstring :=
  match chunks with
  | [] => []
  | value :: rest =>
      let (decoder', decoded) := Utf8.decode decoder value in
      let (frames, buffer') := split_frames (buffer ++ decoded) in
      frames ++ frames_read rest decoder' buffer'
  end.

(** The content of a token frame: its event is an object of type
    ['token'] whose [content] is a string. *)
Definition token_content (frame : jsstring) : option jsstring :=
  match frame_event frame with
  | Some (Obj fields) =>
      if is_string (lookup (lit "type") fields) (lit "token") then
        match lookup (lit "content") fields with
        | Str c => Some c
        | _ => None
        end
      else None
  | _ => None
  end.

(** The answer and the [sources] of a final frame that carries an
    answer: its event is an object of type ['final'] with a truthy
    [answer]. *)
Definition final_answer (frame : jsstring) : option (value * value) :=
  match frame_event frame with
  | Some (Obj fields) =>
      if is_string (lookup (lit "type") fields) (lit "final")
         && truthy (lookup (lit "answer") fields)
      then Some (lookup (lit "answer") fields, lookup (lit "sources") fields)
      else None
  | _ => None
  end.

(** What [sendMessage] does before it awaits [fetch]. *)
Definition prologue (messages : transcript) (text : jsstring) (clk : clock)
  : M unit :=
  setMessages (fun _ => messages ++ [userMessage text clk]) ;;;
  setMessages (fun prev =>
    prev ++ [placeholder (now_ai clk + 1) (date_ai clk)]).

(** The catch block. *)
Definition on_error (clk : clock) : M unit :=
  setMessages (fun prev =>
    prev ++ [errorMessage (now_error clk) (date_error clk)]).

(** ** Interleaved requests

    Between two awaits a call of [sendMessage] runs alone; at an await
    other calls may run.  The component is its transcript and the calls
    that are awaiting, each with the id of its placeholder, its decoder
    and its buffer.  A send is here the handler of a render that shows
    the current transcript; the sends of older renders are in [react]
    below. *)

Record request := {
  req_id : Z;
  req_decoder : Utf8.decoder;
  req_buffer : jsstring
}.

Record chat := {
  transcript_of : transcript;
  inflight : list request
}.

Inductive action :=
| Send (text : jsstring) (clk : clock)
    (* sendMessage(text) up to the await of fetch, called with the
       messages of the current transcript *)
| Chunk (n : nat) (value : list Byte.byte)
    (* the reader of the n-th awaiting call yields a chunk *)
| Finish (n : nat)
    (* the reader of the n-th awaiting call reports done *)
| Fail (n : nat) (now date : Z).
    (* fetch or the reader of the n-th awaiting call rejects, or the
       response has no body: the catch block runs *)

Fixpoint replace_nth {A} (n : nat) (x : A) (l : list A) : list A :=
  match l, n with
  | [], _ => []
  | _ :: l', O => x :: l'
  | y :: l', S n' => y :: replace_nth n' x l'
  end.

Fixpoint remove_nth {A} (n : nat) (l : list A) : list A :=
  match l, n with
  | [], _ => []
  | _ :: l', O => l'
  | y :: l', S n' => y :: remove_nth n' l'
  end.

Definition step (s : chat) (a : action) : option chat :=
  match a with
  | Send text clk =>
      if is_empty (trim text) then Some s
      else Some
        {| transcript_of :=
             exec (prologue (transcript_of s) text clk) (transcript_of s);
           inflight :=
             inflight s ++ [{| req_id := now_ai clk + 1;
                               req_decoder := Utf8.fresh;
                               req_buffer := [] |}] |}
  | Chunk n value =>
      match nth_error (inflight s) n with
      | None => None
      | Some r =>
          let (decoder', decoded) := Utf8.decode (req_decoder r) value in
          match drain (req_id r) (req_buffer r ++ decoded) (transcript_of s)
          with
          | (Normal buffer', st') =>
              Some {| transcript_of := st';
                      inflight :=
                        replace_nth n {| req_id := req_id r;
                                         req_decoder := decoder';
                                         req_buffer := buffer' |}
                                    (inflight s) |}
          | (Throw _, _) => None
          end
      end
  | Finish n =>
      match nth_error (inflight s) n with
      | None => None
      | Some _ => Some {| transcript_of := transcript_of s;
                          inflight := remove_nth n (inflight s) |}
      end
  | Fail n now date =>
      match nth_error (inflight s) n with
      | None => None
      | Some _ =>
          Some {| transcript_of :=
                    transcript_of s ++ [errorMessage now date];
                  inflight := remove_nth n (inflight s) |}
      end
  end.

Fixpoint run (s : chat) (actions : list action) : option chat :=
  match actions with
  | [] => Some s
  | a :: rest =>
      match step s a with
      | Some s' => run s' rest
      | None => None
      end
  end.

Definition initial : chat := {| transcript_of := []; inflight := [] |}.

(** The clock readings of an action give fresh ids: the reading of the
    user message exceeds every id of the transcript and the reading of the
    placeholder is not earlier; the reading of the catch block is at least
    every id of the transcript. *)
Definition timely (s : chat) (a : action) : bool :=
  match a with
  | Send text clk =>
      forallb (fun m => id m <? now_user clk) (transcript_of s)
      && (now_user clk <=? now_ai clk)
  | Fail _ now _ => forallb (fun m => id m <=? now) (transcript_of s)
  | _ => true
  end.

Fixpoint timely_run (s : chat) (actions : list action) : bool :=
  match actions with
  | [] => true
  | a :: rest =>
      timely s a
      && match step s a with
         | Some s' => timely_run s' rest
         | None => true
         end
  end.

(** ** Other frames and the messages of a run *)

(** The [sources] of a meta frame: its event is an object of type
    ['meta']. *)
Definition meta_sources (frame : jsstring) : option value :=
  match frame_event frame with
  | Some (Obj fields) =>
      if is_string (lookup (lit "type") fields) (lit "meta")
      then Some (lookup (lit "sources") fields)
      else None
  | _ => None
  end.

(** The event has one of the three types the dispatch knows. *)
Definition recognized (evt : value) : bool :=
  match evt with
  | Obj fields =>
      let ty := lookup (lit "type") fields in
      is_string ty (lit "token") || is_string ty (lit "meta")
      || is_string ty (lit "final")
  | _ => false
  end.

(** The event is a token without content or a final event without answer:
    the field is absent or falsy. *)
Definition hollow (evt : value) : bool :=
  match evt with
  | Obj fields =>
      let ty := lookup (lit "type") fields in
      is_string ty (lit "token")
        && negb (truthy (lookup (lit "content") fields))
      || is_string ty (lit "final")
           && negb (truthy (lookup (lit "answer") fields))
  | _ => false
  end.

(** The place of a message in the transcript: its id, role and
    timestamp. *)
Definition slot (m : message) : Z * role_name * Z :=
  (id m, role m, timestamp m).

Definition is_user (m : message) : bool :=
  match role m with user => true | assistant => false end.

(** The user messages the sends of a run create. *)
Definition sent (actions : list action) : list message :=
  flat_map (fun a =>
              match a with
              | Send text clk =>
                  if is_empty (trim text) then [] else [userMessage text clk]
              | _ => []
              end) actions.

(** The requests in flight point at messages of the transcript that are
    not user messages. *)
Definition anchored (s : chat) : Prop :=
  forall r, In r (inflight s) ->
    In (req_id r) (List.map id (transcript_of s))
    /\ forall m, In m (transcript_of s) -> is_user m = true ->
                 id m <> req_id r.

(** ** Renders

    A handler is the closure of the latest render: the [messages] a call
    of [sendMessage] starts from are those of that render, and the state
    may have moved on since.  The page is the state, the messages of the
    latest render and the calls that are awaiting. *)

Record page := {
  state_of : transcript;
  render_of : transcript;
  pending : list request
}.

Inductive event :=
| Rerender
    (* React renders the component with the current state *)
| Act (a : action).
    (* an action of the component; a send is the handler of the latest
       render *)

Definition component_of (s : page) : chat :=
  {| transcript_of := state_of s; inflight := pending s |}.

Definition react (s : page) (e : event) : option page :=
  match e with
  | Rerender =>
      Some {| state_of := state_of s; render_of := state_of s;
              pending := pending s |}
  | Act (Send text clk) =>
      if is_empty (trim text) then Some s
      else Some
        {| state_of := exec (prologue (render_of s) text clk) (state_of s);
           render_of := render_of s;
           pending :=
             pending s ++ [{| req_id := now_ai clk + 1;
                              req_decoder := Utf8.fresh;
                              req_buffer := [] |}] |}
  | Act a =>
      match step (component_of s) a with
      | Some c => Some {| state_of := transcript_of c;
                          render_of := render_of s;
                          pending := inflight c |}
      | None => None
      end
  end.

Fixpoint play (s : page) (events : list event) : option page :=
  match events with
  | [] => Some s
  | e :: rest =>
      match react s e with
      | Some s' => play s' rest
      | None => None
      end
  end.

Definition opening : page :=
  {| state_of := []; render_of := []; pending := [] |}.

(** The clock readings of an event give fresh ids, as [timely] has it
    for the state of the page. *)
Definition punctual (s : page) (e : event) : bool :=
  match e with
  | Rerender => true
  | Act a => timely (component_of s) a
  end.

Fixpoint punctual_play (s : page) (events : list event) : bool :=
  match events with
  | [] => true
  | e :: rest =>
      punctual s e
      && match react s e with
         | Some s' => punctual_play s' rest
         | None => true
         end
  end.

(** Every send of the events comes from a render of the current state:
    no state update lies between the latest render and the call. *)
Definition current (s : page) (e : event) : Prop :=
  match e with
  | Act (Send _ _) => render_of s = state_of s
  | _ => True
  end.

Fixpoint current_play (s : page) (events : list event) : Prop :=
  match events with
  | [] => True
  | e :: rest =>
      current s e
      /\ match react s e with
         | Some s' => current_play s' rest
         | None => True
         end
  end.

(** The actions among the events. *)
Definition actions_of (events : list event) : list action :=
  flat_map (fun e => match e with Act a => [a] | Rerender => [] end) events.

(** What a frame never changes in a message. *)
Definition same_slot (before after : message) : Prop :=
  id after = id before /\ role after = role before
  /\ timestamp after = timestamp before.

(** ** Strings *)

Lemma startsWith_app s t pat :
  (List.length pat <= List.length s)%nat ->
  startsWith (s ++ t) pat = startsWith s pat.
Proof.
  revert s. induction pat as [|p pat IH]; intros [|c s] Hlen; simpl in *;
    try reflexivity; try lia.
  rewrite IH by lia. reflexivity.
Qed.

Lemma startsWith_length s pat :
  startsWith s pat = true -> (List.length pat <= List.length s)%nat.
Proof.
  revert s. induction pat as [|p pat IH]; intros [|c s] H; simpl in *;
    try lia; try discriminate.
  apply andb_prop in H. destruct H as [_ H]. apply IH in H. lia.
Qed.

Lemma indexOf_bound s pat idx :
  indexOf s pat = Some idx -> (idx + List.length pat <= List.length s)%nat.
Proof.
  revert idx. induction s as [|c s IH]; intros idx H.
  - simpl in H. destruct (startsWith [] pat) eqn:E; [|discriminate].
    injection H as <-. apply startsWith_length in E. simpl in *. lia.
  - cbn [indexOf] in H. destruct (startsWith (c :: s) pat) eqn:E.
    + injection H as <-. apply startsWith_length in E. simpl in *. lia.
    + destruct (indexOf s pat) as [i|] eqn:Ei; [|discriminate].
      injection H as <-. specialize (IH i eq_refl). simpl. lia.
Qed.

Lemma indexOf_app s t pat idx :
  indexOf s pat = Some idx -> indexOf (s ++ t) pat = Some idx.
Proof.
  revert idx. induction s as [|c s IH]; intros idx H.
  - simpl in H. destruct (startsWith [] pat) eqn:E; [|discriminate].
    injection H as <-. destruct pat; [|discriminate E].
    destruct t; reflexivity.
  - cbn [indexOf] in H. cbn [app indexOf].
    destruct (startsWith (c :: s) pat) eqn:E.
    + change (c :: s ++ t) with ((c :: s) ++ t).
      rewrite startsWith_app, E by (apply startsWith_length; exact E).
      exact H.
    + destruct (indexOf s pat) as [i|] eqn:Ei; [|discriminate].
      injection H as <-.
      change (c :: s ++ t) with ((c :: s) ++ t).
      rewrite startsWith_app, E.
      * rewrite (IH i eq_refl). reflexivity.
      * apply indexOf_bound in Ei. simpl. lia.
Qed.

Lemma eqb_eq a b : JsString.eqb a b = true -> a = b.
Proof.
  revert b. induction a as [|x a IH]; intros [|y b] H; cbn in H;
    try discriminate; [reflexivity|].
  apply andb_prop in H. destruct H as [Hx H].
  apply N.eqb_eq in Hx. rewrite Hx, (IH _ H). reflexivity.
Qed.

Lemma is_string_inv v s : is_string v s = true -> v = Str s.
Proof.
  destruct v; cbn; try discriminate. intros H. rewrite (eqb_eq _ _ H).
  reflexivity.
Qed.

Lemma split_frames_eq buffer :
  split_frames buffer =
  match indexOf buffer boundary with
  | None => ([], buffer)
  | Some idx =>
      let (frames, rest) := split_frames (slice_from (idx + 2) buffer) in
      (slice_to idx buffer :: frames, rest)
  end.
Proof.
  funelim (split_frames buffer).
  - rewrite found. reflexivity.
  - rewrite e. reflexivity.
Qed.

Lemma split_frames_app buffer more :
  split_frames (buffer ++ more) =
  let (frames, rest) := split_frames buffer in
  let (frames', rest') := split_frames (rest ++ more) in
  (frames ++ frames', rest').
Proof.
  remember (List.length buffer) as n eqn:Hn. revert buffer Hn.
  induction n as [n IH] using lt_wf_ind. intros buffer ->.
  rewrite (split_frames_eq buffer).
  destruct (indexOf buffer boundary) as [idx|] eqn:E.
  - rewrite (split_frames_eq (buffer ++ more)), (indexOf_app _ more _ _ E).
    pose proof (indexOf_bound _ _ _ E) as Hb. cbn [boundary List.length] in Hb.
    unfold slice_from, slice_to.
    rewrite skipn_app, firstn_app.
    replace (idx + 2 - List.length buffer)%nat with 0%nat by lia.
    replace (idx - List.length buffer)%nat with 0%nat by lia.
    cbn [skipn firstn]. rewrite app_nil_r.
    rewrite (IH (List.length (skipn (idx + 2) buffer))
                ltac:(rewrite length_skipn; lia) _ eq_refl).
    destruct (split_frames (skipn (idx + 2) buffer)) as [frames rest].
    destruct (split_frames (rest ++ more)) as [frames' rest'].
    reflexivity.
  - destruct (split_frames (buffer ++ more)). reflexivity.
Qed.

Lemma split_frames_wire frames tail :
  forallb delimited frames = true ->
  split_frames (wire frames ++ tail) =
  (frames ++ fst (split_frames tail), snd (split_frames tail)).
Proof.
  induction frames as [|frame frames IH]; intros Hd.
  - simpl. destruct (split_frames tail). reflexivity.
  - cbn [forallb] in Hd. apply andb_prop in Hd. destruct Hd as [Hf Hd].
    unfold delimited in Hf.
    destruct (indexOf (frame ++ boundary) boundary) as [idx|] eqn:E;
      [|discriminate].
    apply Nat.eqb_eq in Hf. subst idx.
    unfold wire. cbn [List.map concat]. fold (wire frames).
    rewrite <- !app_assoc.
    rewrite split_frames_eq.
    rewrite (app_assoc frame boundary), (indexOf_app _ _ _ _ E).
    rewrite <- app_assoc.
    unfold slice_from, slice_to.
    rewrite firstn_app, firstn_all, Nat.sub_diag. cbn [firstn].
    rewrite app_nil_r.
    rewrite skipn_app.
    rewrite (skipn_all2 frame) by lia.
    replace (List.length frame + 2 - List.length frame)%nat with 2%nat by lia.
    cbn [boundary skipn app].
    rewrite (IH Hd). reflexivity.
Qed.

(** ** The decoder *)

Lemma decode_app decoder value value' :
  Utf8.decode decoder (value ++ value') =
  let (decoder1, out1) := Utf8.decode decoder value in
  let (decoder2, out2) := Utf8.decode decoder1 value' in
  (decoder2, out1 ++ out2).
Proof.
  revert decoder. induction value as [|b value IH]; intros decoder.
  - simpl. destruct (Utf8.decode decoder value'). reflexivity.
  - cbn [app Utf8.decode]. destruct (Utf8.decode_byte decoder b) as [d1 o1].
    rewrite IH. destruct (Utf8.decode d1 value) as [d2 o2].
    destruct (Utf8.decode d2 value') as [d3 o3].
    rewrite app_assoc. reflexivity.
Qed.

(** ** One frame *)

Lemma patch_same aiId st : patch aiId (fun m => m) st = st.
Proof.
  unfold patch. induction st as [|m st IH]; simpl; [reflexivity|].
  rewrite IH. destruct (id m =? aiId); reflexivity.
Qed.

Lemma patch_ext aiId f g st :
  (forall m, f m = g m) -> patch aiId f st = patch aiId g st.
Proof.
  intros H. unfold patch. apply map_ext. intros m.
  destruct (id m =? aiId); [apply H | reflexivity].
Qed.

Lemma event_patch_id evt m : id (event_patch evt m) = id m.
Proof.
  unfold event_patch. destruct evt; try reflexivity.
  repeat match goal with |- context [if ?c then _ else _] => destruct c end;
    reflexivity.
Qed.

Lemma frame_patch_id frame m : id (frame_patch frame m) = id m.
Proof.
  unfold frame_patch. destruct (frame_event frame); [|reflexivity].
  apply event_patch_id.
Qed.

Lemma dispatch_patch aiId evt st :
  try_catch (dispatch aiId evt) (fun _ => ret tt) st =
  (Normal tt, patch aiId (event_patch evt) st).
Proof.
  unfold try_catch, dispatch, event_patch, bind, lift, member, ret.
  destruct evt; cbn -[lit]; rewrite ?patch_same; try reflexivity.
  set (ty := lookup (lit "type") fields).
  destruct (is_string ty (lit "token")); cbn -[lit].
  - destruct (truthy (lookup (lit "content") fields)); cbn -[lit].
    + reflexivity.
    + destruct (is_string ty (lit "meta")); cbn -[lit].
      * unfold applyMeta, bind, lift, member, ret, prop, member. cbn -[lit].
        destruct (truthy (lookup (lit "sources") fields)); cbn -[lit];
          rewrite ?patch_same; reflexivity.
      * destruct (is_string ty (lit "final")); cbn -[lit];
          rewrite ?patch_same; try reflexivity.
        destruct (truthy (lookup (lit "answer") fields)); cbn -[lit];
          rewrite ?patch_same; reflexivity.
  - destruct (is_string ty (lit "meta")); cbn -[lit].
    + unfold applyMeta, bind, lift, member, ret, prop, member. cbn -[lit].
      destruct (truthy (lookup (lit "sources") fields)); cbn -[lit];
        rewrite ?patch_same; reflexivity.
    + destruct (is_string ty (lit "final")); cbn -[lit];
        rewrite ?patch_same; try reflexivity.
      destruct (truthy (lookup (lit "answer") fields)); cbn -[lit];
        rewrite ?patch_same; reflexivity.
Qed.

Lemma process_frame_patch aiId frame st :
  process_frame aiId frame st =
  (Normal tt, patch aiId (frame_patch frame) st).
Proof.
  unfold process_frame, frame_patch, frame_event.
  destruct (trim frame) as [|c raw] eqn:Eraw.
  - cbn. rewrite patch_same. reflexivity.
  - cbn [is_empty]. destruct (startsWith (c :: raw) marker).
    + unfold parse. destruct (JSON_parse (slice_from 6 (c :: raw))) as [evt|].
      * rewrite <- dispatch_patch. reflexivity.
      * cbn. rewrite patch_same. reflexivity.
    + cbn. rewrite patch_same. reflexivity.
Qed.

Lemma patch_patch aiId f g st :
  (forall m, id (f m) = id m) ->
  patch aiId g (patch aiId f st) = patch aiId (fun m => g (f m)) st.
Proof.
  intros Hid. unfold patch. rewrite map_map. apply map_ext. intros m.
  destruct (id m =? aiId) eqn:E; [|rewrite E; reflexivity].
  rewrite Hid, E. reflexivity.
Qed.

(** The patches of the frames of a run, composed in arrival order. *)
Lemma run_frames_patch aiId frames st :
  run_frames aiId frames st =
  patch aiId (fun m => fold_left (fun m frame => frame_patch frame m) frames m)
        st.
Proof.
  unfold run_frames. revert st.
  induction frames as [|frame frames IH]; intros st; cbn [fold_left].
  - rewrite patch_same. reflexivity.
  - rewrite IH. unfold exec. rewrite process_frame_patch. cbn [snd].
    apply patch_patch. apply frame_patch_id.
Qed.

Lemma run_frames_app aiId frames frames' st :
  run_frames aiId (frames ++ frames') st =
  run_frames aiId frames' (run_frames aiId frames st).
Proof. unfold run_frames. apply fold_left_app. Qed.

Lemma run_frames_cons aiId frame frames st :
  run_frames aiId (frame :: frames) st =
  run_frames aiId frames (exec (process_frame aiId frame) st).
Proof. reflexivity. Qed.

(** ** The loops *)

Lemma drain_eq aiId buffer st :
  drain aiId buffer st =
  match indexOf buffer boundary with
  | None => (Normal buffer, st)
  | Some idx =>
      (process_frame aiId (slice_to idx buffer) ;;;
       drain aiId (slice_from (idx + 2) buffer)) st
  end.
Proof.
  funelim (drain aiId buffer st).
  - rewrite found. reflexivity.
  - rewrite e. reflexivity.
Qed.

(** The inner loop handles the frames of the buffer in order and leaves
    what follows the last boundary. *)
Lemma drain_frames aiId buffer st :
  drain aiId buffer st =
  (Normal (snd (split_frames buffer)),
   run_frames aiId (fst (split_frames buffer)) st).
Proof.
  remember (List.length buffer) as n eqn:Hn. revert buffer st Hn.
  induction n as [n IH] using lt_wf_ind. intros buffer st ->.
  rewrite drain_eq, split_frames_eq.
  destruct (indexOf buffer boundary) as [idx|] eqn:E; [|reflexivity].
  pose proof (indexOf_bound _ _ _ E) as Hb. cbn [boundary List.length] in Hb.
  unfold bind. rewrite process_frame_patch.
  rewrite (IH (List.length (slice_from (idx + 2) buffer))
              ltac:(unfold slice_from; rewrite length_skipn; lia) _ _ eq_refl).
  destruct (split_frames (slice_from (idx + 2) buffer)) as [frames rest].
  cbn [fst snd run_frames fold_left]. unfold exec.
  rewrite process_frame_patch. reflexivity.
Qed.

Lemma split_frames_rest buffer :
  indexOf (snd (split_frames buffer)) boundary = None.
Proof.
  remember (List.length buffer) as n eqn:Hn. revert buffer Hn.
  induction n as [n IH] using lt_wf_ind. intros buffer ->.
  rewrite split_frames_eq.
  destruct (indexOf buffer boundary) as [idx|] eqn:E; [|exact E].
  pose proof (indexOf_bound _ _ _ E) as Hb. cbn [boundary List.length] in Hb.
  specialize (IH (List.length (slice_from (idx + 2) buffer))
                 ltac:(unfold slice_from; rewrite length_skipn; lia)
                 _ eq_refl).
  destruct (split_frames (slice_from (idx + 2) buffer)) as [frames rest].
  exact IH.
Qed.

Lemma split_frames_none buffer :
  indexOf buffer boundary = None -> split_frames buffer = ([], buffer).
Proof. intros E. rewrite split_frames_eq, E. reflexivity. Qed.

Lemma received_cons decoder value chunks :
  received decoder (value :: chunks) =
  snd (Utf8.decode decoder value)
  ++ received (fst (Utf8.decode decoder value)) chunks.
Proof.
  unfold received. cbn [concat]. rewrite decode_app.
  destruct (Utf8.decode decoder value) as [d1 o1]. cbn [fst snd].
  destruct (Utf8.decode d1 (concat chunks)). reflexivity.
Qed.

(** The read loop handles the frames of the whole received text, however
    the bytes are cut into chunks. *)
Lemma read_loop_frames aiId chunks last decoder buffer st :
  indexOf buffer boundary = None ->
  read_loop aiId chunks last decoder buffer st =
  (stream_outcome last,
   run_frames aiId
     (fst (split_frames (buffer ++ received decoder chunks))) st).
Proof.
  revert decoder buffer st.
  induction chunks as [|value chunks IH]; intros decoder buffer st Hb.
  - unfold received. cbn. rewrite app_nil_r, (split_frames_none _ Hb).
    destruct last; reflexivity.
  - cbn [read_loop]. rewrite received_cons.
    destruct (Utf8.decode decoder value) as [d1 o1]. cbn [fst snd].
    unfold bind. rewrite drain_frames.
    rewrite IH by apply split_frames_rest.
    rewrite app_assoc, (split_frames_app (buffer ++ o1)).
    destruct (split_frames (buffer ++ o1)) as [frames rest]. cbn [fst snd].
    destruct (split_frames (rest ++ received d1 chunks)) as [frames' rest'].
    cbn [fst]. rewrite run_frames_app. reflexivity.
Qed.

Lemma frames_read_split chunks decoder buffer :
  indexOf buffer boundary = None ->
  frames_read chunks decoder buffer =
  fst (split_frames (buffer ++ received decoder chunks)).
Proof.
  revert decoder buffer.
  induction chunks as [|value chunks IH]; intros decoder buffer Hb.
  - unfold received. cbn. rewrite app_nil_r, (split_frames_none _ Hb).
    reflexivity.
  - cbn [frames_read]. rewrite received_cons.
    destruct (Utf8.decode decoder value) as [d1 o1]. cbn [fst snd].
    rewrite app_assoc, (split_frames_app (buffer ++ o1)).
    pose proof (split_frames_rest (buffer ++ o1)) as Hrest.
    destruct (split_frames (buffer ++ o1)) as [frames rest]. cbn [snd] in Hrest.
    rewrite (IH _ _ Hrest).
    destruct (split_frames (rest ++ received d1 chunks)). reflexivity.
Qed.

(** ** The whole call *)

Lemma patch_app aiId f st st' :
  patch aiId f (st ++ st') = patch aiId f st ++ patch aiId f st'.
Proof. unfold patch. apply map_app. Qed.

Lemma patch_others aiId f st :
  Forall2 (fun before after => id before <> aiId -> after = before)
          st (patch aiId f st).
Proof.
  induction st as [|m st IH]; cbn; constructor; [|exact IH].
  intros Hne. destruct (id m =? aiId) eqn:E; [|reflexivity].
  apply Z.eqb_eq in E. contradiction.
Qed.

(** A call whose response has a body: the frames of the received text are
    applied to the transcript the prologue leaves; a rejected read adds
    the error message. *)
Lemma sendMessage_body messages query clk chunks last st :
  is_empty (trim query) = false ->
  sendMessage messages query clk (Body chunks last) st =
  (Normal tt,
   let aiId := now_ai clk + 1 in
   let after :=
     run_frames aiId (fst (split_frames (received Utf8.fresh chunks)))
       (messages ++ [userMessage query clk; placeholder aiId (date_ai clk)]) in
   match last with
   | Done => after
   | ReadRejects =>
       after ++ [errorMessage (now_error clk) (date_error clk)]
   end).
Proof.
  intros Htext. unfold sendMessage. rewrite Htext.
  unfold bind, try_catch, setMessages, stream. cbn [fst snd].
  rewrite (read_loop_frames _ _ _ _ [] _ eq_refl). cbn [app].
  rewrite <- app_assoc. cbn [app].
  destruct last; reflexivity.
Qed.

(** The transcript of the prologue, patched: the placeholder is the last
    message and the others keep their place. *)
Lemma patch_prologue aiId f base date :
  exists others,
    patch aiId f (base ++ [placeholder aiId date]) =
    others ++ [f (placeholder aiId date)]
    /\ Forall2 (fun before after => id before <> aiId -> after = before)
               base others.
Proof.
  exists (patch aiId f base). split; [|apply patch_others].
  rewrite patch_app. cbn. rewrite Z.eqb_refl. reflexivity.
Qed.

(** ** Token frames *)

Lemma with_text_same m : with_text m (text m) = m.
Proof. destruct m; reflexivity. Qed.

Lemma token_patch frame c m t :
  token_content frame = Some c ->
  text m = Str t ->
  frame_patch frame m = with_text m (Str (t ++ c)).
Proof.
  unfold token_content, frame_patch. intros Hc Ht.
  destruct (frame_event frame) as [[| | | | | |fields]|]; try discriminate.
  unfold event_patch. cbv zeta.
  destruct (is_string (lookup (lit "type") fields) (lit "token")) eqn:Ety;
    [|discriminate].
  apply is_string_inv in Ety.
  destruct (lookup (lit "content") fields) as [| | | |c'| |]; try discriminate.
  injection Hc as ->. rewrite Ety. cbn [andb truthy].
  destruct c as [|u c]; cbn [is_empty negb].
  - cbn. rewrite app_nil_r, <- Ht. symmetry. apply with_text_same.
  - rewrite Ht. unfold or_else, truthy. destruct t; reflexivity.
Qed.

Lemma tokens_patch frames contents m t :
  List.map token_content frames = List.map Some contents ->
  text m = Str t ->
  fold_left (fun m frame => frame_patch frame m) frames m =
  with_text m (Str (t ++ concat contents)).
Proof.
  revert contents m t.
  induction frames as [|frame frames IH]; intros [|c contents] m t Hc Ht;
    try discriminate.
  - cbn. rewrite app_nil_r, <- Ht. symmetry. apply with_text_same.
  - cbn [List.map] in Hc. injection Hc as Hc Hcs.
    cbn [fold_left concat].
    rewrite (token_patch _ _ _ _ Hc Ht).
    rewrite (IH contents (with_text m (Str (t ++ c))) (t ++ c) Hcs eq_refl).
    rewrite app_assoc. reflexivity.
Qed.

(** C1, as the code has it.  A stream that consists of token frames with
    contents c1 ... cn and then ends: the call leaves the placeholder as
    the last message, its text the concatenation of the contents in
    arrival order and its other fields as created, and every message
    whose id is not the id of the placeholder as it was.  (The update is
    keyed by the id alone: a message that shares the id of the placeholder
    receives the tokens too.) *)
Theorem tokens_concatenate messages query clk chunks frames contents st :
  is_empty (trim query) = false ->
  List.map token_content frames = List.map Some contents ->
  forallb delimited frames = true ->
  received Utf8.fresh chunks = wire frames ->
  let aiId := now_ai clk + 1 in
  exists others,
    sendMessage messages query clk (Body chunks Done) st =
    (Normal tt,
     others ++ [{| id := aiId;
                   text := Str (concat contents);
                   role := assistant;
                   sources := Arr [];
                   timestamp := date_ai clk |}])
    /\ Forall2 (fun before after => id before <> aiId -> after = before)
               (messages ++ [userMessage query clk]) others.
Proof.
  intros Htext Hc Hd Hr aiId.
  rewrite (sendMessage_body _ _ _ _ _ _ Htext). cbv zeta. fold aiId.
  rewrite Hr. rewrite <- (app_nil_r (wire frames)).
  rewrite (split_frames_wire _ _ Hd), (split_frames_none [] eq_refl).
  cbn [fst]. rewrite app_nil_r, run_frames_patch.
  change (messages ++ [userMessage query clk; placeholder aiId (date_ai clk)])
    with (messages ++ [userMessage query clk] ++ [placeholder aiId (date_ai clk)]).
  rewrite app_assoc.
  destruct (patch_prologue aiId
              (fun m => fold_left (fun m frame => frame_patch frame m) frames m)
              (messages ++ [userMessage query clk]) (date_ai clk))
    as [others [Heq Hothers]].
  exists others. split; [|exact Hothers].
  rewrite Heq. rewrite (tokens_patch _ _ (placeholder aiId (date_ai clk)) [] Hc eq_refl). reflexivity.
Qed.

(** ** The final frame *)

Lemma final_patch frame answer srcs m :
  final_answer frame = Some (answer, srcs) ->
  frame_patch frame m =
  with_sources (with_text m answer)
               (if truthy srcs then srcs else sources m).
Proof.
  unfold final_answer, frame_patch. intros Hf.
  destruct (frame_event frame) as [[| | | | | |fields]|]; try discriminate.
  unfold event_patch. cbv zeta.
  destruct (is_string (lookup (lit "type") fields) (lit "final")) eqn:Ety;
    [|discriminate].
  apply is_string_inv in Ety. rewrite Ety in *. cbn [andb] in Hf.
  destruct (truthy (lookup (lit "answer") fields)) eqn:Ea; [|discriminate].
  injection Hf as <- <-. cbn. reflexivity.
Qed.

Lemma fold_left_snoc {A B} (f : A -> B -> A) l x a :
  fold_left f (l ++ [x]) a = f (fold_left f l a) x.
Proof. rewrite fold_left_app. reflexivity. Qed.

(** C2, as the code has it.  A final frame whose answer is truthy
    (present and not the empty string: the guard [evt.type === 'final' &&
    evt.answer]), after any frames: the call leaves the placeholder with
    the answer as its text, whatever text the earlier frames accumulated,
    and with the sources of the frame where they are truthy and the
    sources accumulated so far where they are not; messages with another
    id are as they were. *)
Theorem final_overrides messages query clk chunks frames final answer srcs st :
  is_empty (trim query) = false ->
  final_answer final = Some (answer, srcs) ->
  forallb delimited (frames ++ [final]) = true ->
  received Utf8.fresh chunks = wire (frames ++ [final]) ->
  let aiId := now_ai clk + 1 in
  let accumulated :=
    fold_left (fun m frame => frame_patch frame m) frames
              (placeholder aiId (date_ai clk)) in
  exists others,
    sendMessage messages query clk (Body chunks Done) st =
    (Normal tt,
     others ++ [{| id := aiId;
                   text := answer;
                   role := assistant;
                   sources := if truthy srcs then srcs
                              else sources accumulated;
                   timestamp := date_ai clk |}])
    /\ Forall2 (fun before after => id before <> aiId -> after = before)
               (messages ++ [userMessage query clk]) others.
Proof.
  intros Htext Hf Hd Hr aiId accumulated.
  rewrite (sendMessage_body _ _ _ _ _ _ Htext). cbv zeta. fold aiId.
  rewrite Hr. rewrite <- (app_nil_r (wire (frames ++ [final]))).
  rewrite (split_frames_wire _ _ Hd), (split_frames_none [] eq_refl).
  cbn [fst]. rewrite app_nil_r, run_frames_patch.
  change (messages ++ [userMessage query clk; placeholder aiId (date_ai clk)])
    with (messages ++ [userMessage query clk]
          ++ [placeholder aiId (date_ai clk)]).
  rewrite app_assoc.
  destruct (patch_prologue aiId
              (fun m => fold_left (fun m frame => frame_patch frame m)
                                  (frames ++ [final]) m)
              (messages ++ [userMessage query clk]) (date_ai clk))
    as [others [Heq Hothers]].
  exists others. split; [|exact Hothers].
  rewrite Heq, fold_left_snoc. fold accumulated.
  rewrite (final_patch _ _ _ accumulated Hf).
  assert (Hid : id accumulated = aiId).
  { unfold accumulated. clear. induction frames as [|f fs IH] using rev_ind.
    - reflexivity.
    - rewrite fold_left_snoc, frame_patch_id. exact IH. }
  assert (Hrole : role accumulated = assistant
                  /\ timestamp accumulated = date_ai clk).
  { unfold accumulated. clear. induction frames as [|f fs IH] using rev_ind.
    - split; reflexivity.
    - rewrite fold_left_snoc. destruct IH as [IH1 IH2].
      unfold frame_patch. destruct (frame_event f) as [evt|];
        [|split; assumption].
      unfold event_patch. destruct evt; try (split; assumption).
      repeat match goal with
             | |- context [if ?c then _ else _] => destruct c
             end; split; assumption. }
  destruct Hrole as [Hrole Hts].
  unfold with_sources, with_text. cbn [id text role sources timestamp].
  rewrite Hid, Hrole, Hts. reflexivity.
Qed.

(** ** Chunk boundaries *)

Lemma read_loop_frames_read aiId chunks last decoder buffer st :
  indexOf buffer boundary = None ->
  read_loop aiId chunks last decoder buffer st =
  (stream_outcome last,
   run_frames aiId (frames_read chunks decoder buffer) st).
Proof.
  intros Hb. rewrite (read_loop_frames _ _ _ _ _ _ Hb).
  rewrite (frames_read_split _ _ _ Hb). reflexivity.
Qed.

Lemma concat_singletons {A} (l : list A) :
  concat (List.map (fun x => [x]) l) = l.
Proof. induction l as [|x l IH]; cbn; [|rewrite IH]; reflexivity. Qed.

Lemma received_chunking decoder chunks chunks' :
  concat chunks = concat chunks' ->
  received decoder chunks = received decoder chunks'.
Proof. unfold received. intros ->. reflexivity. Qed.

(** C3.  The bytes of a stream handed over one by one or in one chunk:
    the read loop handles the same frames in the same order, and the call
    ends in the same way with the same transcript. *)
Theorem chunking_invariant messages query clk bytes last st :
  frames_read (List.map (fun b => [b]) bytes) Utf8.fresh []
  = frames_read [bytes] Utf8.fresh []
  /\ sendMessage messages query clk
       (Body (List.map (fun b => [b]) bytes) last) st
     = sendMessage messages query clk (Body [bytes] last) st.
Proof.
  assert (Hr : received Utf8.fresh (List.map (fun b => [b]) bytes)
               = received Utf8.fresh [bytes]).
  { apply received_chunking. rewrite concat_singletons. cbn.
    rewrite app_nil_r. reflexivity. }
  split.
  - rewrite !(frames_read_split _ _ [] eq_refl), Hr. reflexivity.
  - unfold sendMessage. destruct (is_empty (trim query)); [reflexivity|].
    unfold bind, try_catch, setMessages, stream. cbn [fst snd].
    rewrite !(read_loop_frames _ _ _ _ [] _ eq_refl), Hr. reflexivity.
Qed.

(** ** Frames that are not data *)

(** C4.  A frame whose payload does not parse: handling it completes
    normally and leaves the transcript as it is, and the read loop over a
    stream with such a frame ends as it does without the frame, every
    other frame applied in order. *)
Theorem malformed_frame_dropped aiId frames bad frames' chunks st :
  startsWith (trim bad) marker = true ->
  JSON_parse (slice_from 6 (trim bad)) = None ->
  forallb delimited (frames ++ bad :: frames') = true ->
  received Utf8.fresh chunks = wire (frames ++ bad :: frames') ->
  process_frame aiId bad st = (Normal tt, st)
  /\ read_loop aiId chunks Done Utf8.fresh [] st
     = (Normal tt, run_frames aiId (frames ++ frames') st).
Proof.
  intros Hm Hp Hd Hr.
  assert (Hbad : forall st', process_frame aiId bad st' = (Normal tt, st')).
  { intros st'. rewrite process_frame_patch.
    unfold frame_patch, frame_event. rewrite Hm, Hp, patch_same.
    reflexivity. }
  split; [apply Hbad|].
  rewrite (read_loop_frames _ _ _ _ [] _ eq_refl). cbn [app stream_outcome].
  rewrite Hr, <- (app_nil_r (wire _)).
  rewrite (split_frames_wire _ _ Hd), (split_frames_none [] eq_refl).
  cbn [fst]. rewrite app_nil_r, !run_frames_app, run_frames_cons.
  unfold exec at 1. rewrite Hbad. reflexivity.
Qed.

(** C9, as the code has it.  A frame is data only as a whole: where the
    trimmed frame starts with the marker, all the text after the marker,
    further lines included, is the payload, and the frame is applied
    where that text parses; a frame that starts otherwise changes
    nothing, a marker on a later line included. *)
Theorem marker_starts_frame aiId frame st :
  process_frame aiId frame st =
  (Normal tt,
   if startsWith (trim frame) marker then
     match JSON_parse (slice_from 6 (trim frame)) with
     | Some evt => patch aiId (event_patch evt) st
     | None => st
     end
   else st).
Proof.
  rewrite process_frame_patch. unfold frame_patch, frame_event.
  destruct (startsWith (trim frame) marker).
  - destruct (JSON_parse (slice_from 6 (trim frame)));
      [|rewrite patch_same]; reflexivity.
  - rewrite patch_same. reflexivity.
Qed.

(** C10.  Text after the last boundary when the stream ends: the call
    applies the frames before it and nothing else, whatever the text
    is. *)
Theorem trailing_text_discarded messages query clk chunks frames tail st :
  is_empty (trim query) = false ->
  forallb delimited frames = true ->
  indexOf tail boundary = None ->
  received Utf8.fresh chunks = wire frames ++ tail ->
  let aiId := now_ai clk + 1 in
  sendMessage messages query clk (Body chunks Done) st =
  (Normal tt,
   run_frames aiId frames
     (messages ++ [userMessage query clk; placeholder aiId (date_ai clk)])).
Proof.
  intros Htext Hd Htail Hr aiId.
  rewrite (sendMessage_body _ _ _ _ _ _ Htext). cbv zeta. fold aiId.
  rewrite Hr, (split_frames_wire _ _ Hd), (split_frames_none _ Htail).
  cbn [fst]. rewrite app_nil_r. reflexivity.
Qed.

(** ** Before and without the stream *)

Lemma sendMessage_prologue messages query clk net st :
  is_empty (trim query) = false ->
  sendMessage messages query clk net st =
  try_catch (stream (now_ai clk + 1) net) (fun _ => on_error clk)
    (messages ++ [userMessage query clk;
                  placeholder (now_ai clk + 1) (date_ai clk)]).
Proof.
  intros Htext. unfold sendMessage. rewrite Htext.
  unfold bind, try_catch, setMessages, on_error. cbn [fst snd].
  rewrite <- app_assoc. reflexivity.
Qed.


(** C5, as the code has it.  The connection fails before any byte arrives,
    or the response has no body: the call completes normally and the
    transcript is the messages of the call, the user message, the
    placeholder unchanged with empty text, and one error message with the
    fixed text; the id of the error message is one more than the reading
    of the clock in the catch block, so it differs from the id of the
    placeholder exactly when that reading differs from the reading taken
    for the placeholder. *)
Theorem failed_connection messages query clk net st :
  is_empty (trim query) = false ->
  net = FetchRejects \/ net = NoBody ->
  let aiId := now_ai clk + 1 in
  let failure := errorMessage (now_error clk) (date_error clk) in
  sendMessage messages query clk net st =
  (Normal tt,
   messages ++ [userMessage query clk; placeholder aiId (date_ai clk);
                failure])
  /\ text failure = Str errorText
  /\ role failure = assistant
  /\ (id failure = aiId <-> now_error clk = now_ai clk).
Proof.
  intros Htext Hnet aiId failure.
  split; [|split; [reflexivity|split; [reflexivity|]]].
  - rewrite (sendMessage_prologue _ _ _ _ _ Htext).
    destruct Hnet as [-> | ->]; unfold try_catch, stream, throw, on_error,
      setMessages; cbn [fst snd]; rewrite <- app_assoc; reflexivity.
  - unfold failure, aiId, errorMessage. cbn [id]. lia.
Qed.

(** ** Ids *)

Lemma patch_ids aiId f st :
  (forall m, id (f m) = id m) ->
  List.map id (patch aiId f st) = List.map id st.
Proof.
  intros Hid. unfold patch. rewrite map_map. apply map_ext. intros m.
  destruct (id m =? aiId); [apply Hid | reflexivity].
Qed.

Lemma run_frames_ids aiId frames st :
  List.map id (run_frames aiId frames st) = List.map id st.
Proof.
  rewrite run_frames_patch. apply patch_ids. intros m.
  induction frames as [|f fs IH] using rev_ind; [reflexivity|].
  rewrite fold_left_snoc, frame_patch_id. exact IH.
Qed.

Lemma NoDup_snoc (l : list Z) x :
  NoDup l -> ~ In x l -> NoDup (l ++ [x]).
Proof.
  induction l as [|y l IH]; intros Hl Hx; cbn.
  - constructor; [intros []|constructor].
  - inversion Hl as [|? ? Hy Hl']; subst. constructor.
    + rewrite in_app_iff. intros [H|[H|[]]]; [contradiction|].
      apply Hx. left. symmetry. exact H.
    + apply IH; [exact Hl'|]. intros H. apply Hx. right. exact H.
Qed.

Lemma below_not_in st bound :
  forallb (fun m => id m <? bound) st = true -> ~ In bound (List.map id st).
Proof.
  intros Hall Hin. apply in_map_iff in Hin. destruct Hin as [m [Hm Hin]].
  rewrite forallb_forall in Hall. specialize (Hall m Hin).
  apply Z.ltb_lt in Hall. lia.
Qed.

Lemma below_weaken st bound bound' :
  bound <= bound' ->
  forallb (fun m => id m <? bound) st = true ->
  forallb (fun m => id m <? bound') st = true.
Proof.
  intros Hle Hall. rewrite forallb_forall in *. intros m Hin.
  specialize (Hall m Hin). apply Z.ltb_lt in Hall. apply Z.ltb_lt. lia.
Qed.

(** A step whose clock readings are fresh keeps the ids distinct. *)
Lemma step_ids s a s' :
  step s a = Some s' ->
  timely s a = true ->
  NoDup (List.map id (transcript_of s)) ->
  NoDup (List.map id (transcript_of s')).
Proof.
  intros Hstep Ht Hs. destruct a as [query clk|n value|n|n now date];
    cbn [step timely] in Hstep, Ht.
  - destruct (is_empty (trim query)).
    + injection Hstep as <-. exact Hs.
    + injection Hstep as <-. cbn [transcript_of].
      apply andb_prop in Ht. destruct Ht as [Hfresh Hle].
      apply Z.leb_le in Hle.
      unfold exec, prologue, bind, setMessages. cbn [fst snd].
      rewrite !map_app. cbn [List.map userMessage placeholder id].
      apply NoDup_snoc.
      * apply NoDup_snoc; [exact Hs|]. apply below_not_in. exact Hfresh.
      * rewrite in_app_iff. intros [Hin|[Heq|[]]]; [|lia].
        revert Hin. apply below_not_in.
        apply (below_weaken _ (now_user clk)); [lia|exact Hfresh].
  - destruct (nth_error (inflight s) n) as [r|]; [|discriminate].
    destruct (Utf8.decode (req_decoder r) value) as [d1 o1].
    rewrite drain_frames in Hstep. injection Hstep as <-.
    cbn [transcript_of]. rewrite run_frames_ids. exact Hs.
  - destruct (nth_error (inflight s) n); [|discriminate].
    injection Hstep as <-. exact Hs.
  - destruct (nth_error (inflight s) n); [|discriminate].
    injection Hstep as <-. cbn [transcript_of].
    rewrite map_app. cbn [List.map errorMessage id].
    apply NoDup_snoc; [exact Hs|]. apply below_not_in.
    rewrite forallb_forall in *. intros m Hin. specialize (Ht m Hin).
    apply Z.leb_le in Ht. apply Z.ltb_lt. lia.
Qed.

Lemma run_ids actions s s' :
  run s actions = Some s' ->
  timely_run s actions = true ->
  NoDup (List.map id (transcript_of s)) ->
  NoDup (List.map id (transcript_of s')).
Proof.
  revert s. induction actions as [|a actions IH]; intros s Hrun Ht Hs.
  - injection Hrun as <-. exact Hs.
  - cbn [run timely_run] in Hrun, Ht.
    apply andb_prop in Ht. destruct Ht as [Ha Ht].
    destruct (step s a) as [s1|] eqn:Hstep; [|discriminate].
    apply (IH s1 Hrun Ht). apply (step_ids _ _ _ Hstep Ha Hs).
Qed.

(** A call of [sendMessage] that nothing interleaves with is a run of the
    component: the send, its chunks, and the end of the stream or the
    failure. *)
Lemma run_app s actions actions' :
  run s (actions ++ actions') =
  match run s actions with
  | Some s' => run s' actions'
  | None => None
  end.
Proof.
  revert s. induction actions as [|a actions IH]; intros s; cbn [app run].
  - reflexivity.
  - destruct (step s a); [apply IH | reflexivity].
Qed.

Lemma run_chunks aiId chunks decoder buffer st :
  exists r,
    run {| transcript_of := st;
           inflight := [{| req_id := aiId; req_decoder := decoder;
                           req_buffer := buffer |}] |}
        (List.map (Chunk 0) chunks)
    = Some {| transcript_of :=
                exec (read_loop aiId chunks Done decoder buffer) st;
              inflight := [r] |}.
Proof.
  revert decoder buffer st.
  induction chunks as [|value chunks IH]; intros decoder buffer st.
  - eexists. reflexivity.
  - cbn [List.map run step nth_error inflight transcript_of req_id
         req_decoder req_buffer read_loop].
    destruct (Utf8.decode decoder value) as [d1 o1].
    unfold exec, bind. rewrite drain_frames. cbn [replace_nth].
    destruct (IH d1 (snd (split_frames (buffer ++ o1)))
                 (run_frames aiId (fst (split_frames (buffer ++ o1))) st))
      as [r Hr].
    exists r. rewrite Hr. reflexivity.
Qed.

Lemma sendMessage_is_a_run messages query clk chunks :
  is_empty (trim query) = false ->
  run {| transcript_of := messages; inflight := [] |}
      (Send query clk :: List.map (Chunk 0) chunks ++ [Finish 0])
  = Some {| transcript_of :=
              exec (sendMessage messages query clk (Body chunks Done))
                   messages;
            inflight := [] |}
  /\ run {| transcript_of := messages; inflight := [] |}
         [Send query clk; Fail 0 (now_error clk) (date_error clk)]
     = Some {| transcript_of :=
                 exec (sendMessage messages query clk FetchRejects) messages;
               inflight := [] |}.
Proof.
  intros Htext. split.
  - cbn [run step]. rewrite Htext. cbn [inflight transcript_of app].
    rewrite run_app.
    destruct (run_chunks (now_ai clk + 1) chunks Utf8.fresh []
                (exec (prologue messages query clk) messages)) as [r Hr].
    rewrite Hr. cbn [run step nth_error inflight transcript_of remove_nth].
    unfold exec at 3. rewrite (sendMessage_prologue _ _ _ _ _ Htext).
    unfold try_catch, stream.
    rewrite (read_loop_frames _ _ _ _ [] _ eq_refl). cbn [stream_outcome snd].
    unfold exec at 1. rewrite (read_loop_frames _ _ _ _ [] _ eq_refl).
    cbn [snd]. unfold exec, prologue, bind, setMessages. cbn [fst snd].
    rewrite <- app_assoc. reflexivity.
  - cbn [run step]. rewrite Htext.
    cbn [inflight transcript_of app nth_error remove_nth].
    unfold exec at 2. rewrite (sendMessage_prologue _ _ _ _ _ Htext).
    unfold try_catch, stream, throw, on_error, setMessages. cbn [snd].
    unfold exec, prologue, bind, setMessages. cbn [fst snd].
    rewrite <- !app_assoc. reflexivity.
Qed.

(** C6, as the code has it.  Ids come from the clock: in every state the
    component reaches by sends, chunks, ends of streams and failures, in
    any order, no two messages share an id, provided the reading for each
    user message exceeds every id of the transcript, the reading for its
    placeholder is not earlier, and the reading of each catch block is at
    least every id of the transcript. *)
Theorem ids_unique_when_timely actions s :
  run initial actions = Some s ->
  timely_run initial actions = true ->
  NoDup (List.map id (transcript_of s)).
Proof.
  intros Hrun Ht. apply (run_ids _ _ _ Hrun Ht). constructor.
Qed.

(** ** Further properties of the framer *)

Lemma startsWith_firstn n s pat :
  startsWith (firstn n s) pat = true -> startsWith s pat = true.
Proof.
  revert n s. induction pat as [|p pat IH]; intros n s H; [reflexivity|].
  destruct n as [|n]; [discriminate H|].
  destruct s as [|c s]; [discriminate H|].
  cbn in H |- *. apply andb_prop in H. destruct H as [Hc H].
  rewrite Hc, (IH _ _ H). reflexivity.
Qed.

Lemma indexOf_firstn s p pat idx :
  indexOf s (p :: pat) = Some idx ->
  indexOf (firstn idx s) (p :: pat) = None.
Proof.
  revert idx. induction s as [|c s IH]; intros idx H.
  - destruct idx; reflexivity.
  - cbn [indexOf] in H. destruct (startsWith (c :: s) (p :: pat)) eqn:E.
    + injection H as <-. reflexivity.
    + destruct (indexOf s (p :: pat)) as [i|] eqn:Ei; [|discriminate].
      injection H as <-. cbn [firstn indexOf].
      destruct (startsWith (c :: firstn i s) (p :: pat)) eqn:E'.
      * apply (startsWith_firstn (S i) (c :: s)) in E'. congruence.
      * rewrite (IH i eq_refl). reflexivity.
Qed.

Lemma startsWith_split s pat :
  startsWith s pat = true -> s = pat ++ skipn (List.length pat) s.
Proof.
  revert s. induction pat as [|p pat IH]; intros s H; [reflexivity|].
  destruct s as [|c s]; [discriminate H|].
  cbn in H. apply andb_prop in H. destruct H as [Hc H].
  apply N.eqb_eq in Hc. subst c. cbn. f_equal. apply IH. exact H.
Qed.

Lemma indexOf_split s pat idx :
  indexOf s pat = Some idx ->
  s = firstn idx s ++ pat ++ skipn (idx + List.length pat) s.
Proof.
  revert idx. induction s as [|c s IH]; intros idx H.
  - cbn in H. destruct (startsWith [] pat) eqn:E; [|discriminate].
    injection H as <-. destruct pat; [reflexivity|discriminate E].
  - cbn [indexOf] in H. destruct (startsWith (c :: s) pat) eqn:E.
    + injection H as <-. cbn [firstn app Nat.add].
      apply startsWith_split. exact E.
    + destruct (indexOf s pat) as [i|] eqn:Ei; [|discriminate].
      injection H as <-. cbn [firstn app Nat.add skipn]. f_equal.
      apply IH. reflexivity.
Qed.

Lemma split_frames_partition buffer :
  wire (fst (split_frames buffer)) ++ snd (split_frames buffer) = buffer
  /\ Forall (fun frame => indexOf frame boundary = None)
            (fst (split_frames buffer)).
Proof.
  remember (List.length buffer) as n eqn:Hn. revert buffer Hn.
  induction n as [n IH] using lt_wf_ind. intros buffer ->.
  rewrite split_frames_eq.
  destruct (indexOf buffer boundary) as [idx|] eqn:E;
    [|split; [reflexivity|constructor]].
  pose proof (indexOf_bound _ _ _ E) as Hb. cbn [boundary List.length] in Hb.
  destruct (IH (List.length (slice_from (idx + 2) buffer))
               ltac:(unfold slice_from; rewrite length_skipn; lia)
               _ eq_refl) as [Hw Hf].
  destruct (split_frames (slice_from (idx + 2) buffer)) as [frames rest].
  cbn [fst snd] in *. split.
  - unfold wire. cbn [List.map concat]. fold (wire frames).
    rewrite <- !app_assoc, Hw. symmetry.
    apply (indexOf_split _ _ _ E).
  - constructor; [|exact Hf]. apply indexOf_firstn. exact E.
Qed.

(** X1.  The inner loop cuts the buffer and loses nothing: the frames it
    handles, each followed by a boundary, and the buffer it leaves make up
    the buffer it was given; no frame and no leftover contains a
    boundary. *)
Theorem framer_partitions_buffer aiId buffer st :
  exists frames rest,
    drain aiId buffer st = (Normal rest, run_frames aiId frames st)
    /\ wire frames ++ rest = buffer
    /\ Forall (fun frame => indexOf frame boundary = None) frames
    /\ indexOf rest boundary = None.
Proof.
  exists (fst (split_frames buffer)), (snd (split_frames buffer)).
  split; [apply drain_frames|].
  destruct (split_frames_partition buffer) as [Hw Hf].
  split; [exact Hw|]. split; [exact Hf|]. apply split_frames_rest.
Qed.

(** X2.  The result of a call depends on the bytes of the body only, not
    on how they are cut into chunks: two bodies with the same bytes give
    the same frames and the same result, empty chunks included. *)
Theorem chunking_irrelevant messages query clk chunks chunks' last st :
  concat chunks = concat chunks' ->
  frames_read chunks Utf8.fresh [] = frames_read chunks' Utf8.fresh []
  /\ sendMessage messages query clk (Body chunks last) st
     = sendMessage messages query clk (Body chunks' last) st.
Proof.
  intros Hc. pose proof (received_chunking Utf8.fresh _ _ Hc) as Hr. split.
  - rewrite !(frames_read_split _ _ [] eq_refl), Hr. reflexivity.
  - unfold sendMessage. destruct (is_empty (trim query)); [reflexivity|].
    unfold bind, try_catch, setMessages, stream. cbn [fst snd].
    rewrite !(read_loop_frames _ _ _ _ [] _ eq_refl), Hr. reflexivity.
Qed.

(** ** Further properties of the dispatch *)

Lemma process_frame_event aiId frame evt st :
  frame_event frame = Some evt ->
  process_frame aiId frame st = (Normal tt, patch aiId (event_patch evt) st).
Proof.
  intros He. rewrite process_frame_patch. unfold frame_patch. rewrite He.
  reflexivity.
Qed.

(** X3.  A meta frame: where its [sources] are truthy they replace the
    sources of the placeholder, otherwise nothing changes; the text of
    every message stays as it is. *)
Theorem meta_replaces_sources aiId frame srcs st :
  meta_sources frame = Some srcs ->
  process_frame aiId frame st =
  (Normal tt,
   patch aiId (fun m => if truthy srcs then with_sources m srcs else m) st)
  /\ List.map text (exec (process_frame aiId frame) st) = List.map text st.
Proof.
  unfold meta_sources. intros Hm.
  destruct (frame_event frame) as [[| | | | | |fields]|] eqn:He;
    try discriminate.
  destruct (is_string (lookup (lit "type") fields) (lit "meta")) eqn:Ety;
    [|discriminate].
  injection Hm as <-.
  assert (Hp : process_frame aiId frame st =
               (Normal tt,
                patch aiId (fun m =>
                  if truthy (lookup (lit "sources") fields)
                  then with_sources m (lookup (lit "sources") fields)
                  else m) st)).
  { rewrite (process_frame_event _ _ _ _ He). f_equal.
    apply patch_ext. intros m. unfold event_patch. cbv zeta.
    apply is_string_inv in Ety. rewrite Ety. reflexivity. }
  split; [exact Hp|].
  unfold exec. rewrite Hp. cbn [snd]. unfold patch. rewrite map_map.
  apply map_ext. intros m. destruct (id m =? aiId); [|reflexivity].
  destruct (truthy (lookup (lit "sources") fields)); reflexivity.
Qed.

(** X4.  An event the dispatch does not know changes nothing and raises
    nothing: a payload that is not an object ([null], whose property
    access throws inside the try block, a number, a string, an array), an
    object without [type], or one of another type. *)
Theorem unrecognized_event_ignored aiId frame evt st :
  frame_event frame = Some evt ->
  recognized evt = false ->
  process_frame aiId frame st = (Normal tt, st).
Proof.
  intros He Hr. rewrite (process_frame_event _ _ _ _ He).
  rewrite <- (patch_same aiId st) at 2. f_equal. apply patch_ext. intros m.
  unfold event_patch. destruct evt; try reflexivity.
  cbn [recognized] in Hr.
  apply orb_false_iff in Hr. destruct Hr as [Hr Hfin].
  apply orb_false_iff in Hr. destruct Hr as [Htok Hmeta].
  cbv zeta. rewrite Htok, Hmeta, Hfin. reflexivity.
Qed.

(** X5.  A token event whose [content] is absent or falsy and a final
    event whose [answer] is absent or falsy change nothing: an empty final
    answer does not erase the text the tokens accumulated. *)
Theorem hollow_event_ignored aiId frame evt st :
  frame_event frame = Some evt ->
  hollow evt = true ->
  process_frame aiId frame st = (Normal tt, st).
Proof.
  intros He Hh. rewrite (process_frame_event _ _ _ _ He).
  rewrite <- (patch_same aiId st) at 2. f_equal. apply patch_ext. intros m.
  unfold event_patch. destruct evt; try discriminate.
  cbn [hollow] in Hh. cbv zeta.
  apply orb_true_iff in Hh. destruct Hh as [Hh|Hh];
    apply andb_prop in Hh; destruct Hh as [Hty Hf];
    apply negb_true_iff in Hf; apply is_string_inv in Hty;
    rewrite Hty, ?Hf; cbn; rewrite ?Hf; reflexivity.
Qed.

(** ** What a stream never does *)

Lemma event_patch_slot evt m : same_slot m (event_patch evt m).
Proof.
  unfold same_slot, event_patch. destruct evt; try (repeat split).
  all: repeat match goal with
              | |- context [if ?c then _ else _] => destruct c
              end; reflexivity.
Qed.

Lemma frame_patch_slot frame m : same_slot m (frame_patch frame m).
Proof.
  unfold frame_patch. destruct (frame_event frame);
    [apply event_patch_slot | repeat split].
Qed.

Lemma frames_patch_slot frames m :
  same_slot m (fold_left (fun m frame => frame_patch frame m) frames m).
Proof.
  induction frames as [|f fs IH] using rev_ind; [repeat split|].
  rewrite fold_left_snoc.
  destruct IH as [I1 [I2 I3]].
  destruct (frame_patch_slot f
              (fold_left (fun m frame => frame_patch frame m) fs m))
    as [J1 [J2 J3]].
  repeat split; congruence.
Qed.

Lemma read_loop_runs aiId chunks last decoder buffer st :
  exists frames,
    read_loop aiId chunks last decoder buffer st =
    (stream_outcome last, run_frames aiId frames st).
Proof.
  revert decoder buffer st.
  induction chunks as [|value chunks IH]; intros decoder buffer st.
  - exists []. destruct last; reflexivity.
  - cbn [read_loop]. destruct (Utf8.decode decoder value) as [d1 o1].
    unfold bind. rewrite drain_frames.
    destruct (IH d1 (snd (split_frames (buffer ++ o1)))
                 (run_frames aiId (fst (split_frames (buffer ++ o1))) st))
      as [frames Hf].
    exists (fst (split_frames (buffer ++ o1)) ++ frames).
    rewrite Hf, run_frames_app. reflexivity.
Qed.

Lemma run_frames_shape aiId frames st :
  Forall2 (fun before after =>
             same_slot before after /\ (id before <> aiId -> after = before))
          st (run_frames aiId frames st).
Proof.
  rewrite run_frames_patch. induction st as [|m st IH]; cbn; constructor;
    [|exact IH].
  destruct (id m =? aiId) eqn:E.
  - split; [apply frames_patch_slot|]. apply Z.eqb_eq in E. contradiction.
  - split; [repeat split | reflexivity].
Qed.

Lemma shape_roles aiId st st' :
  Forall2 (fun before after =>
             same_slot before after /\ (id before <> aiId -> after = before))
          st st' ->
  List.map role st' = List.map role st.
Proof.
  intros H. induction H as [|m m' l l' [[_ [Hr _]] _] _ IH];
    [reflexivity|]. cbn [List.map]. rewrite Hr, IH. reflexivity.
Qed.

(** X6.  Whatever the stream brings, the read loop adds no message,
    removes none and moves none: every message keeps its id, its role and
    its timestamp, and a message whose id is not the id of the placeholder
    is left as it was. *)
Theorem stream_keeps_shape aiId chunks last decoder buffer st :
  Forall2 (fun before after =>
             same_slot before after /\ (id before <> aiId -> after = before))
          st (exec (read_loop aiId chunks last decoder buffer) st).
Proof.
  destruct (read_loop_runs aiId chunks last decoder buffer st) as [frames Hf].
  unfold exec. rewrite Hf. apply run_frames_shape.
Qed.

Lemma patch_absent aiId f st :
  forallb (fun m => negb (id m =? aiId)) st = true -> patch aiId f st = st.
Proof.
  unfold patch. induction st as [|m st IH]; intros H; [reflexivity|].
  cbn in H |- *. apply andb_prop in H. destruct H as [Hm H].
  apply negb_true_iff in Hm. rewrite Hm, (IH H). reflexivity.
Qed.

(** X7.  Where no message has the id of the placeholder, the read loop
    leaves the transcript exactly as it is, whatever frames arrive. *)
Theorem absent_id_no_op aiId chunks last decoder buffer st :
  forallb (fun m => negb (id m =? aiId)) st = true ->
  exec (read_loop aiId chunks last decoder buffer) st = st.
Proof.
  intros Habs.
  destruct (read_loop_runs aiId chunks last decoder buffer st) as [frames Hf].
  unfold exec. rewrite Hf. cbn [snd]. rewrite run_frames_patch.
  apply patch_absent. exact Habs.
Qed.

Lemma patch_commute a b f g st :
  a <> b ->
  (forall m, id (f m) = id m) -> (forall m, id (g m) = id m) ->
  patch a f (patch b g st) = patch b g (patch a f st).
Proof.
  intros Hne Hf Hg. unfold patch. rewrite !map_map. apply map_ext. intros m.
  destruct (id m =? b) eqn:Eb; destruct (id m =? a) eqn:Ea;
    rewrite ?Hf, ?Hg, ?Ea, ?Eb; try reflexivity.
  apply Z.eqb_eq in Ea, Eb. congruence.
Qed.

Lemma frames_patch_id frames m :
  id (fold_left (fun m frame => frame_patch frame m) frames m) = id m.
Proof. apply (frames_patch_slot frames m). Qed.

(** X8.  Two requests with different placeholders do not disturb each
    other: the inner loops of the two, run on their buffers in either
    order, leave the same transcript. *)
Theorem requests_commute a b buffer buffer' st :
  a <> b ->
  exec (drain a buffer) (exec (drain b buffer') st)
  = exec (drain b buffer') (exec (drain a buffer) st).
Proof.
  intros Hne. unfold exec. rewrite !drain_frames. cbn [snd].
  rewrite !run_frames_patch.
  apply patch_commute; [exact Hne| |]; intros m; apply frames_patch_id.
Qed.

(** ** Further properties of the whole call *)

Lemma trimStart_spaces s : forallb is_space s = true -> trimStart s = [].
Proof.
  induction s as [|c s IH]; intros H; [reflexivity|].
  cbn in H |- *. apply andb_prop in H. destruct H as [Hc H].
  rewrite Hc. apply IH. exact H.
Qed.

(** X9.  A query of white space only (or an empty one) is not sent: the
    call returns at once, the transcript is untouched and the network is
    not consulted. *)
Theorem blank_query_ignored messages query clk net net' st :
  forallb is_space query = true ->
  sendMessage messages query clk net st = (Normal tt, st)
  /\ sendMessage messages query clk net st
     = sendMessage messages query clk net' st.
Proof.
  intros Hq.
  assert (Ht : is_empty (trim query) = true).
  { unfold trim. rewrite (trimStart_spaces _ Hq). reflexivity. }
  unfold sendMessage. rewrite Ht. split; reflexivity.
Qed.

Lemma sendMessage_cases messages query clk net st :
  is_empty (trim query) = false ->
  exists frames,
    sendMessage messages query clk net st =
    (Normal tt,
     run_frames (now_ai clk + 1) frames
       (messages ++ [userMessage query clk;
                     placeholder (now_ai clk + 1) (date_ai clk)])
     ++ match net with
        | Body _ Done => []
        | _ => [errorMessage (now_error clk) (date_error clk)]
        end).
Proof.
  intros Htext. rewrite (sendMessage_prologue _ _ _ _ _ Htext).
  destruct net as [| |chunks last].
  - exists []. reflexivity.
  - exists []. reflexivity.
  - unfold try_catch, stream.
    destruct (read_loop_runs (now_ai clk + 1) chunks last Utf8.fresh []
                (messages ++ [userMessage query clk;
                              placeholder (now_ai clk + 1) (date_ai clk)]))
      as [frames Hf].
    exists frames. rewrite Hf. destruct last; cbn [stream_outcome].
    + rewrite app_nil_r. reflexivity.
    + reflexivity.
Qed.

(** X10.  No error leaves [sendMessage]: it completes normally for every
    query, clock, response and state, a rejected fetch, a missing body
    and a rejected read included. *)
Theorem sendMessage_never_throws messages query clk net st :
  fst (sendMessage messages query clk net st) = Normal tt.
Proof.
  destruct (is_empty (trim query)) eqn:Htext.
  - unfold sendMessage. rewrite Htext. reflexivity.
  - destruct (sendMessage_cases messages query clk net st Htext) as [fs Hf].
    rewrite Hf. reflexivity.
Qed.

(** X11.  A read that rejects after some chunks: the call leaves what the
    same chunks leave when the stream ends normally, the text the
    placeholder accumulated included, and one error message after it. *)
Theorem read_failure_keeps_progress messages query clk chunks st :
  is_empty (trim query) = false ->
  sendMessage messages query clk (Body chunks ReadRejects) st =
  (Normal tt,
   exec (sendMessage messages query clk (Body chunks Done)) st
   ++ [errorMessage (now_error clk) (date_error clk)]).
Proof.
  intros Htext. unfold exec.
  rewrite !(sendMessage_body _ _ _ _ _ _ Htext). reflexivity.
Qed.

(** X12.  A call with a query that is not blank starts from the
    [messages] of its render, not from the current state: whatever the
    state holds when the call starts is replaced, so the result is the
    same for every state. *)
Theorem send_discards_state messages query clk net st st' :
  is_empty (trim query) = false ->
  sendMessage messages query clk net st
  = sendMessage messages query clk net st'.
Proof.
  intros Htext. rewrite !(sendMessage_prologue _ _ _ _ _ Htext). reflexivity.
Qed.

(** X13.  The messages of a call that is not blank: the messages of the
    render with their ids, roles and timestamps, then the user message
    and the placeholder, then the error message unless the stream ended
    normally; the user message is as it was created unless the placeholder
    has its id. *)
Theorem send_adds_two_or_three messages query clk net st :
  is_empty (trim query) = false ->
  let after := exec (sendMessage messages query clk net) st in
  List.map id after
  = List.map id messages ++ [now_user clk; now_ai clk + 1]
    ++ match net with
       | Body _ Done => []
       | _ => [now_error clk + 1]
       end
  /\ List.map role after
     = List.map role messages ++ [user; assistant]
       ++ match net with
          | Body _ Done => []
          | _ => [assistant]
          end
  /\ (now_user clk <> now_ai clk + 1 ->
      nth_error after (List.length messages) = Some (userMessage query clk)).
Proof.
  intros Htext after. unfold after, exec.
  destruct (sendMessage_cases messages query clk net st Htext) as [fs Hf].
  rewrite Hf. cbn [snd].
  pose proof (run_frames_shape (now_ai clk + 1) fs
                (messages ++ [userMessage query clk;
                              placeholder (now_ai clk + 1) (date_ai clk)]))
    as Hshape.
  assert (Hids : List.map id (run_frames (now_ai clk + 1) fs
                   (messages ++ [userMessage query clk;
                                 placeholder (now_ai clk + 1) (date_ai clk)]))
                 = List.map id messages ++ [now_user clk; now_ai clk + 1]).
  { rewrite run_frames_ids, map_app. reflexivity. }
  assert (Hroles : List.map role (run_frames (now_ai clk + 1) fs
                     (messages ++ [userMessage query clk;
                                   placeholder (now_ai clk + 1) (date_ai clk)]))
                   = List.map role messages ++ [user; assistant]).
  { rewrite (shape_roles _ _ _ Hshape), map_app. reflexivity. }
  split; [|split].
  - rewrite map_app, Hids, <- app_assoc.
    destruct net as [| |chunks [|]]; reflexivity.
  - rewrite map_app, Hroles, <- app_assoc.
    destruct net as [| |chunks [|]]; reflexivity.
  - intros Hne.
    assert (Hlen : (List.length messages <
                    List.length (run_frames (now_ai clk + 1) fs
                      (messages ++ [userMessage query clk;
                                    placeholder (now_ai clk + 1)
                                                (date_ai clk)])))%nat).
    { apply (f_equal (@List.length Z)) in Hids.
      rewrite length_map, length_app, length_map in Hids. cbn in Hids. lia. }
    rewrite (nth_error_app1 _ _ Hlen).
    clear Hids Hroles Hlen Hf. revert Hshape.
    generalize (run_frames (now_ai clk + 1) fs
                  (messages ++ [userMessage query clk;
                                placeholder (now_ai clk + 1) (date_ai clk)])).
    induction messages as [|m ms IH]; intros l Hshape.
    + inversion Hshape as [|? ? ? ? [_ Hsame] _]; subst. cbn.
      rewrite (Hsame Hne). reflexivity.
    + inversion Hshape as [|? ? ? ? _ Hrest]; subst. cbn.
      apply IH. exact Hrest.
Qed.

(** ** Runs of interleaved requests *)

Lemma run_frames_slots aiId frames st :
  List.map slot (run_frames aiId frames st) = List.map slot st.
Proof.
  pose proof (run_frames_shape aiId frames st) as H.
  induction H as [|m m' l l' [[H1 [H2 H3]] _] _ IH]; [reflexivity|].
  cbn [List.map]. rewrite IH. unfold slot. rewrite H1, H2, H3. reflexivity.
Qed.

Lemma step_slots s a s' :
  step s a = Some s' ->
  exists more,
    List.map slot (transcript_of s')
    = List.map slot (transcript_of s) ++ more.
Proof.
  intros Hstep. destruct a as [query clk|n value|n|n now date];
    cbn [step] in Hstep.
  - destruct (is_empty (trim query)); injection Hstep as <-.
    + exists []. rewrite app_nil_r. reflexivity.
    + cbn [transcript_of]. unfold exec, prologue, bind, setMessages.
      cbn [fst snd]. eexists. rewrite <- app_assoc, map_app. reflexivity.
  - destruct (nth_error (inflight s) n) as [r|]; [|discriminate].
    destruct (Utf8.decode (req_decoder r) value) as [d1 o1].
    rewrite drain_frames in Hstep. injection Hstep as <-.
    cbn [transcript_of]. rewrite run_frames_slots.
    exists []. rewrite app_nil_r. reflexivity.
  - destruct (nth_error (inflight s) n); [|discriminate].
    injection Hstep as <-. exists []. rewrite app_nil_r. reflexivity.
  - destruct (nth_error (inflight s) n); [|discriminate].
    injection Hstep as <-. cbn [transcript_of]. eexists.
    rewrite map_app. reflexivity.
Qed.

Lemma In_replace_nth {A} n (x : A) l y :
  In y (replace_nth n x l) -> y = x \/ In y l.
Proof.
  revert n. induction l as [|z l IH]; intros [|n] H; cbn in H;
    try contradiction.
  - destruct H as [<-|H]; [left; reflexivity | right; right; exact H].
  - destruct H as [<-|H]; [right; left; reflexivity|].
    destruct (IH _ H) as [E|E]; [left; exact E | right; right; exact E].
Qed.

Lemma In_remove_nth {A} n (l : list A) y :
  In y (remove_nth n l) -> In y l.
Proof.
  revert n. induction l as [|z l IH]; intros [|n] H; cbn in H;
    try contradiction.
  - right. exact H.
  - destruct H as [<-|H]; [left; reflexivity | right; apply (IH _ H)].
Qed.

Lemma patch_users aiId f st :
  (forall m, role (f m) = role m) ->
  (forall m, In m st -> is_user m = true -> id m <> aiId) ->
  filter is_user (patch aiId f st) = filter is_user st.
Proof.
  intros Hrole. unfold patch.
  induction st as [|m st IH]; intros Hfree; [reflexivity|].
  cbn [List.map filter].
  rewrite IH by (intros m' Hin; apply Hfree; right; exact Hin).
  destruct (id m =? aiId) eqn:E; [|reflexivity].
  apply Z.eqb_eq in E.
  assert (Hm : is_user m = false).
  { destruct (is_user m) eqn:Eu; [|reflexivity].
    exfalso. apply (Hfree m (or_introl eq_refl) Eu). exact E. }
  unfold is_user in *. rewrite Hrole, Hm. reflexivity.
Qed.

Lemma run_frames_users aiId frames st :
  (forall m, In m st -> is_user m = true -> id m <> aiId) ->
  filter is_user (run_frames aiId frames st) = filter is_user st.
Proof.
  intros Hfree. rewrite run_frames_patch. apply patch_users; [|exact Hfree].
  intros m. apply (frames_patch_slot frames m).
Qed.

Lemma in_run_frames aiId frames st m' :
  In m' (run_frames aiId frames st) ->
  exists m, In m st /\ id m' = id m /\ role m' = role m.
Proof.
  pose proof (run_frames_shape aiId frames st) as H.
  induction H as [|m0 m0' l l' [[H1 [H2 _]] _] _ IH]; intros Hin;
    [contradiction|].
  destruct Hin as [<-|Hin].
  - exists m0. split; [left; reflexivity | split; assumption].
  - destruct (IH Hin) as [m [Hm Hs]]. exists m. split; [right|]; assumption.
Qed.

Lemma step_users s a s' :
  step s a = Some s' ->
  timely s a = true ->
  anchored s ->
  anchored s'
  /\ filter is_user (transcript_of s')
     = filter is_user (transcript_of s) ++ sent [a].
Proof.
  intros Hstep Ht Hs. unfold anchored in *.
  destruct a as [query clk|n value|n|n now date];
    cbn [step timely] in Hstep, Ht; cbn [sent flat_map].
  - destruct (is_empty (trim query)); injection Hstep as <-.
    + split; [exact Hs | rewrite app_nil_r; reflexivity].
    + apply andb_prop in Ht. destruct Ht as [Hfresh Hle].
      apply Z.leb_le in Hle. rewrite forallb_forall in Hfresh.
      assert (Hts : exec (prologue (transcript_of s) query clk)
                         (transcript_of s)
                    = transcript_of s
                      ++ [userMessage query clk;
                          placeholder (now_ai clk + 1) (date_ai clk)]).
      { unfold exec, prologue, bind, setMessages. cbn [fst snd].
        rewrite <- app_assoc. reflexivity. }
      cbn [transcript_of inflight]. rewrite Hts. split.
      * intros r Hr. apply in_app_iff in Hr. destruct Hr as [Hr|[<-|[]]].
        -- destruct (Hs r Hr) as [Hin Hfree]. split.
           ++ rewrite map_app, in_app_iff. left. exact Hin.
           ++ intros m Hm Hu. apply in_app_iff in Hm.
              destruct Hm as [Hm|[<-|[<-|[]]]].
              ** apply (Hfree m Hm Hu).
              ** cbn [userMessage id]. intros E.
                 apply in_map_iff in Hin. destruct Hin as [m0 [E0 Hin0]].
                 specialize (Hfresh m0 Hin0). apply Z.ltb_lt in Hfresh. lia.
              ** discriminate Hu.
        -- cbn [req_id]. split.
           ++ rewrite map_app, in_app_iff. right. right. left. reflexivity.
           ++ intros m Hm Hu. apply in_app_iff in Hm.
              destruct Hm as [Hm|[<-|[<-|[]]]].
              ** specialize (Hfresh m Hm). apply Z.ltb_lt in Hfresh. lia.
              ** cbn [userMessage id]. lia.
              ** discriminate Hu.
      * rewrite filter_app, app_nil_r. reflexivity.
  - destruct (nth_error (inflight s) n) as [r|] eqn:Hn; [|discriminate].
    destruct (Utf8.decode (req_decoder r) value) as [d1 o1].
    rewrite drain_frames in Hstep. injection Hstep as <-.
    cbn [transcript_of inflight]. apply nth_error_In in Hn. split.
    + intros r' Hr'. apply In_replace_nth in Hr'.
      assert (Hold : exists r0, In r0 (inflight s) /\ req_id r' = req_id r0).
      { destruct Hr' as [->|Hr']; [exists r | exists r'];
          split; try assumption; reflexivity. }
      destruct Hold as [r0 [Hr0 ->]]. destruct (Hs r0 Hr0) as [Hin Hfree].
      split.
      * rewrite run_frames_ids. exact Hin.
      * intros m' Hm' Hu. apply in_run_frames in Hm'.
        destruct Hm' as [m [Hm [Hid Hrole]]]. rewrite Hid.
        apply (Hfree m Hm). unfold is_user in *. rewrite <- Hrole. exact Hu.
    + rewrite app_nil_r. apply run_frames_users.
      apply (proj2 (Hs r Hn)).
  - destruct (nth_error (inflight s) n) as [r0|]; [|discriminate].
    injection Hstep as <-. cbn [transcript_of inflight]. split.
    + intros r Hr. apply In_remove_nth in Hr. apply (Hs r Hr).
    + rewrite app_nil_r. reflexivity.
  - destruct (nth_error (inflight s) n) as [r0|]; [|discriminate].
    injection Hstep as <-. cbn [transcript_of inflight]. split.
    + intros r Hr. apply In_remove_nth in Hr.
      destruct (Hs r Hr) as [Hin Hfree]. split.
      * rewrite map_app, in_app_iff. left. exact Hin.
      * intros m Hm Hu. apply in_app_iff in Hm.
        destruct Hm as [Hm|[<-|[]]]; [apply (Hfree m Hm Hu)|discriminate Hu].
    + rewrite filter_app, app_nil_r. cbn. rewrite app_nil_r. reflexivity.
Qed.

Lemma sent_app actions actions' :
  sent (actions ++ actions') = sent actions ++ sent actions'.
Proof. unfold sent. apply flat_map_app. Qed.

(** ** Runs of the page *)

Lemma react_current s e s' :
  react s e = Some s' ->
  current s e ->
  match e with
  | Rerender => component_of s' = component_of s
  | Act a => step (component_of s) a = Some (component_of s')
  end.
Proof.
  intros Hreact Hcur. destruct e as [|a]; cbn [react] in Hreact.
  - injection Hreact as <-. reflexivity.
  - destruct a as [query clk|n value|n|n now date].
    + cbn [current] in Hcur. cbn [step].
      destruct (is_empty (trim query)); injection Hreact as <-;
        [destruct s; reflexivity|].
      unfold component_of. cbn [state_of pending transcript_of inflight].
      rewrite Hcur. reflexivity.
    + destruct (step (component_of s) (Chunk n value)) as [c|];
        [|discriminate].
      injection Hreact as <-. destruct c; reflexivity.
    + destruct (step (component_of s) (Finish n)) as [c|]; [|discriminate].
      injection Hreact as <-. destruct c; reflexivity.
    + destruct (step (component_of s) (Fail n now date)) as [c|];
        [|discriminate].
      injection Hreact as <-. destruct c; reflexivity.
Qed.

(** X14.  The transcript only grows as long as every send comes from a
    render of the current state: in every such run of the page, sends,
    chunks, ends of streams, failures and renders in any order, the
    messages present before are still there afterwards, in the same order
    and with the same ids, roles and timestamps, and new messages come
    after them.  (A send from an older render replaces the state.) *)
Theorem play_appends_only events s s' :
  play s events = Some s' ->
  current_play s events ->
  exists more,
    List.map slot (state_of s') = List.map slot (state_of s) ++ more.
Proof.
  revert s. induction events as [|e events IH]; intros s Hplay Hcur.
  - injection Hplay as <-. exists []. rewrite app_nil_r. reflexivity.
  - cbn [play current_play] in Hplay, Hcur. destruct Hcur as [He Hcur].
    destruct (react s e) as [s1|] eqn:Hreact; [|discriminate].
    destruct (IH s1 Hplay Hcur) as [more2 H2].
    pose proof (react_current _ _ _ Hreact He) as Hstep.
    destruct e as [|a].
    + exists more2. rewrite H2.
      change (state_of s1) with (transcript_of (component_of s1)).
      rewrite Hstep. reflexivity.
    + destruct (step_slots _ _ _ Hstep) as [more1 H1].
      cbn [component_of transcript_of] in H1.
      exists (more1 ++ more2). rewrite H2, H1, app_assoc. reflexivity.
Qed.

Lemma play_users events s s' :
  play s events = Some s' ->
  punctual_play s events = true ->
  current_play s events ->
  anchored (component_of s) ->
  filter is_user (state_of s')
  = filter is_user (state_of s) ++ sent (actions_of events).
Proof.
  revert s. induction events as [|e events IH]; intros s Hplay Hp Hcur Hs.
  - injection Hplay as <-. cbn. rewrite app_nil_r. reflexivity.
  - cbn [play punctual_play current_play] in Hplay, Hp, Hcur.
    destruct Hcur as [He Hcur].
    apply andb_prop in Hp. destruct Hp as [Hpe Hp].
    destruct (react s e) as [s1|] eqn:Hreact; [|discriminate].
    pose proof (react_current _ _ _ Hreact He) as Hstep.
    destruct e as [|a].
    + assert (Hs1 : anchored (component_of s1)) by (rewrite Hstep; exact Hs).
      rewrite (IH s1 Hplay Hp Hcur Hs1).
      change (state_of s1) with (transcript_of (component_of s1)).
      rewrite Hstep. reflexivity.
    + cbn [punctual] in Hpe.
      destruct (step_users _ _ _ Hstep Hpe Hs) as [Hs1 Hu1].
      cbn [component_of transcript_of] in Hu1.
      rewrite (IH s1 Hplay Hp Hcur Hs1), Hu1, <- app_assoc.
      unfold actions_of. cbn [flat_map]. fold (actions_of events).
      change ([a] ++ actions_of events) with ([a] ++ actions_of events).
      rewrite sent_app. reflexivity.
Qed.

(** X15.  User messages are not altered by the streams: in a run of the
    page whose clock readings are fresh and in which every send comes from
    a render of the current state, the user messages of the transcript
    are exactly the messages the sends created, in the order of the sends
    and as they were created, whatever frames arrived in between. *)
Theorem user_messages_kept events s :
  play opening events = Some s ->
  punctual_play opening events = true ->
  current_play opening events ->
  filter is_user (state_of s) = sent (actions_of events).
Proof.
  intros Hplay Hp Hcur.
  apply (play_users _ _ _ Hplay Hp Hcur). intros r [].
Qed.

Lemma ids_of_slots st :
  List.map id st = List.map (fun t => fst (fst t)) (List.map slot st).
Proof. rewrite map_map. reflexivity. Qed.

Lemma NoDup_prefix (l more : list Z) : NoDup (l ++ more) -> NoDup l.
Proof.
  induction l as [|x l IH]; intros H; [constructor|].
  cbn in H. inversion H as [|? ? Hx Hl]; subst. constructor.
  - intros Hin. apply Hx. apply in_app_iff. left. exact Hin.
  - apply IH. exact Hl.
Qed.

(** A step of the page keeps the ids distinct, whichever render a send
    comes from: the ids of the latest render are the first ids of the
    state. *)
Lemma react_ids s e s' :
  react s e = Some s' ->
  punctual s e = true ->
  NoDup (List.map id (state_of s)) ->
  (exists more, List.map id (state_of s)
                = List.map id (render_of s) ++ more) ->
  NoDup (List.map id (state_of s'))
  /\ exists more, List.map id (state_of s')
                  = List.map id (render_of s') ++ more.
Proof.
  intros Hreact Hp Hn [more Hpre]. destruct e as [|a]; cbn [react] in Hreact.
  - injection Hreact as <-. cbn [state_of render_of]. split; [exact Hn|].
    exists []. rewrite app_nil_r. reflexivity.
  - cbn [punctual] in Hp.
    assert (Hother :
      forall c, step (component_of s) a = Some c ->
                (forall q k, a <> Send q k) ->
                NoDup (List.map id (transcript_of c))
                /\ exists more', List.map id (transcript_of c)
                                 = List.map id (render_of s) ++ more').
    { intros c Hstep _. split.
      - apply (step_ids _ _ _ Hstep Hp). exact Hn.
      - destruct (step_slots _ _ _ Hstep) as [more1 H1].
        cbn [component_of transcript_of] in H1.
        exists (more ++ List.map (fun t => fst (fst t)) more1).
        rewrite (ids_of_slots (transcript_of c)), H1, map_app.
        rewrite <- ids_of_slots, Hpre, app_assoc. reflexivity. }
    destruct a as [query clk|n value|n|n now date].
    + cbn [timely component_of transcript_of] in Hp.
      destruct (is_empty (trim query)); injection Hreact as <-.
      * split; [exact Hn|]. exists more. exact Hpre.
      * cbn [state_of render_of].
        apply andb_prop in Hp. destruct Hp as [Hfresh Hle].
        apply Z.leb_le in Hle.
        assert (Hts : exec (prologue (render_of s) query clk) (state_of s)
                      = render_of s
                        ++ [userMessage query clk;
                            placeholder (now_ai clk + 1) (date_ai clk)]).
        { unfold exec, prologue, bind, setMessages. cbn [fst snd].
          rewrite <- app_assoc. reflexivity. }
        rewrite Hts.
        assert (Hbelow : forall x, In x (List.map id (render_of s)) ->
                                   x < now_user clk).
        { intros x Hx.
          assert (Hin : In x (List.map id (state_of s)))
            by (rewrite Hpre; apply in_app_iff; left; exact Hx).
          apply in_map_iff in Hin. destruct Hin as [m [<- Hm]].
          rewrite forallb_forall in Hfresh. specialize (Hfresh m Hm).
          apply Z.ltb_lt in Hfresh. exact Hfresh. }
        split; [|eexists; rewrite map_app; reflexivity].
        rewrite map_app. cbn [List.map userMessage placeholder id].
        change [now_user clk; now_ai clk + 1]
          with ([now_user clk] ++ [now_ai clk + 1]).
        rewrite app_assoc. apply NoDup_snoc.
        -- apply NoDup_snoc.
           ++ rewrite Hpre in Hn. apply (NoDup_prefix _ _ Hn).
           ++ intros Hin. apply Hbelow in Hin. lia.
        -- rewrite in_app_iff. intros [Hin|[Heq|[]]]; [|lia].
           apply Hbelow in Hin. lia.
    + destruct (step (component_of s) (Chunk n value)) as [c|] eqn:Hstep;
        [|discriminate].
      injection Hreact as <-. cbn [state_of render_of].
      apply (Hother c eq_refl). intros q k. discriminate.
    + destruct (step (component_of s) (Finish n)) as [c|] eqn:Hstep;
        [|discriminate].
      injection Hreact as <-. cbn [state_of render_of].
      apply (Hother c eq_refl). intros q k. discriminate.
    + destruct (step (component_of s) (Fail n now date)) as [c|] eqn:Hstep;
        [|discriminate].
      injection Hreact as <-. cbn [state_of render_of].
      apply (Hother c eq_refl). intros q k. discriminate.
Qed.

(** X18.  Ids stay distinct also when sends come from older renders: in
    every run of the page, renders at any point or none, no two messages
    of the state share an id, provided the clock readings are fresh for
    the state as in C6. *)
Theorem ids_unique_with_stale_renders events s :
  play opening events = Some s ->
  punctual_play opening events = true ->
  NoDup (List.map id (state_of s)).
Proof.
  intros Hplay Hp.
  assert (Hgen : forall events s0 s1,
            play s0 events = Some s1 ->
            punctual_play s0 events = true ->
            NoDup (List.map id (state_of s0)) ->
            (exists more, List.map id (state_of s0)
                          = List.map id (render_of s0) ++ more) ->
            NoDup (List.map id (state_of s1))).
  { clear. intros events. induction events as [|e events IH];
      intros s0 s1 Hplay Hp Hn Hpre.
    - injection Hplay as <-. exact Hn.
    - cbn [play punctual_play] in Hplay, Hp.
      apply andb_prop in Hp. destruct Hp as [Hpe Hp].
      destruct (react s0 e) as [s'|] eqn:Hreact; [|discriminate].
      destruct (react_ids _ _ _ Hreact Hpe Hn Hpre) as [Hn' Hpre'].
      apply (IH s' s1 Hplay Hp Hn' Hpre'). }
  apply (Hgen events opening s Hplay Hp); [constructor|].
  exists []. reflexivity.
Qed.

End Component.

(** ** The session id *)

Section SessionId.
Import Session.

Lemma newId_usable p : usable_draw p = true -> is_empty (newId p) = false.
Proof.
  unfold usable_draw, newId. destruct (randomUUID p) as [uuid|].
  - intros H. apply negb_true_iff in H. exact H.
  - intros H. apply Nat.ltb_lt in H. unfold slice_from.
    destruct (random_base36 p) as [|a [|b [|c rest]]]; cbn in *;
      try lia; reflexivity.
Qed.

Lemma initSessionId_stored p sid :
  is_empty sid = false -> initSessionId p (Some sid) = (sid, Some sid).
Proof. intros H. unfold initSessionId. rewrite H. reflexivity. Qed.

Lemma initSessionId_runs_stored ps sid :
  is_empty sid = false ->
  initSessionId_runs ps (Some sid) = (repeat sid (List.length ps), Some sid).
Proof.
  intros H. induction ps as [|p ps IH]; [reflexivity|].
  cbn [initSessionId_runs]. rewrite (initSessionId_stored _ _ H), IH.
  reflexivity.
Qed.

(** C7, as the code has it.  Where the draws of the first run give a
    non-empty id (a UUID, or a random number other than 0, whose rendering
    has digits after ["0."]), the initializer returns a non-empty string,
    stores it, and every later run returns the same string and leaves the
    storage as it is, whatever its own draws are. *)
Theorem session_id_stable p ps st :
  usable_draw p = true ->
  let sid := fst (initSessionId p st) in
  sid <> []
  /\ snd (initSessionId p st) = Some sid
  /\ initSessionId_runs ps (Some sid) = (repeat sid (List.length ps), Some sid).
Proof.
  intros Hp sid.
  assert (Hsid : is_empty sid = false).
  { unfold sid, initSessionId. destruct st as [[|c existing]|]; cbn;
      try apply newId_usable; try exact Hp. reflexivity. }
  split; [|split].
  - intros E. rewrite E in Hsid. discriminate.
  - unfold sid, initSessionId. destruct st as [[|c existing]|]; reflexivity.
  - apply initSessionId_runs_stored. exact Hsid.
Qed.

End SessionId.

(** ** Further properties of the session id *)

Section SessionStorage.
Import Session.

(** X16.  The initializer persists what it returns: after every run the
    storage holds exactly the id the run returned; and a stored id that is
    not empty is returned as it is, the storage left as it was, whatever
    the platform draws. *)
Theorem session_id_persisted p st :
  snd (initSessionId p st) = Some (fst (initSessionId p st))
  /\ (forall sid p',
        st = Some sid -> is_empty sid = false ->
        initSessionId p st = (sid, st)
        /\ initSessionId p' st = initSessionId p st).
Proof.
  split.
  - unfold initSessionId. destruct st as [[|c existing]|]; reflexivity.
  - intros sid p' -> Hsid. rewrite !(initSessionId_stored _ _ Hsid).
    split; reflexivity.
Qed.

End SessionStorage.

(** ** The recommendation form *)

Section RecommendForm.
Import Recommend.

(** X17.  A submit always settles: whatever the request brings (a
    rejected fetch, a body that is not JSON, any JSON value), the form is
    not loading afterwards, and its results are the array [results] of
    this answer or empty, never the results of an earlier submit. *)
Theorem submit_settles r s :
  loading (handleSubmit r s) = false
  /\ (forall s', results (handleSubmit r s) = results (handleSubmit r s'))
  /\ (results (handleSubmit r s) = []
      \/ exists data,
           r = Json data
           /\ prop data (lit "results") = Arr (results (handleSubmit r s))).
Proof.
  split; [reflexivity|]. split.
  - intros s'. reflexivity.
  - unfold handleSubmit, handleSubmit_end, handleSubmit_begin.
    destruct r as [| |data]; try (left; reflexivity).
    destruct (truthy data); [|left; reflexivity].
    unfold results_of.
    destruct (prop data (lit "results")) eqn:E; try (left; reflexivity).
    right. exists data. split; [reflexivity|]. cbn [results]. exact E.
Qed.

End RecommendForm.

(** ** The scenarios of the specification and other runs *)

Section Runs.
Import Examples.

(** The token frames of Scenario A, the first one cut by a chunk
    boundary. *)
Lemma tokens_concatenate_witness :
  is_empty (trim (lit "hi")) = false
  /\ List.map (token_content parse_example) token_frames
     = List.map Some [lit "Hel"; lit "lo"]
  /\ exists others,
       sendMessage parse_example add_example [] (lit "hi") (frozen 5)
         (Body (in_two_chunks 11 (wire token_frames)) Done) []
       = (Normal tt,
          others ++ [{| id := 6; text := Str (lit "Hello");
                        role := assistant; sources := Arr [];
                        timestamp := 5 |}])
       /\ Forall2 (fun before after => id before <> 6 -> after = before)
                  ([] ++ [userMessage (lit "hi") (frozen 5)]) others.
Proof.
  split; [reflexivity|]. split; [reflexivity|].
  apply (tokens_concatenate parse_example add_example [] (lit "hi")
           (frozen 5) (in_two_chunks 11 (wire token_frames)) token_frames
           [lit "Hel"; lit "lo"] []); reflexivity.
Defined.

(** Scenario A: two token frames and the final frame. *)
Lemma final_overrides_witness :
  final_answer parse_example (marker ++ final_json "Hello!")
  = Some (Str (lit "Hello!"), Undefined)
  /\ exists others,
       sendMessage parse_example add_example [] (lit "hi") (frozen 5)
         (Body (in_two_chunks 40 (wire scenario_A)) Done) []
       = (Normal tt,
          others ++ [{| id := 6; text := Str (lit "Hello!");
                        role := assistant; sources := Arr [];
                        timestamp := 5 |}])
       /\ Forall2 (fun before after => id before <> 6 -> after = before)
                  ([] ++ [userMessage (lit "hi") (frozen 5)]) others.
Proof.
  split; [reflexivity|].
  apply (final_overrides parse_example add_example [] (lit "hi") (frozen 5)
           (in_two_chunks 40 (wire scenario_A)) token_frames
           (marker ++ final_json "Hello!") (Str (lit "Hello!")) Undefined []);
    reflexivity.
Defined.

(** A multi-byte character cut by chunk boundaries: the three bytes of
    U+C548 arrive one by one and the frame holds the one character. *)
Example partial_sequence_carried :
  frames_read [[Byte.xec]; [Byte.x95]; [Byte.x88; Byte.x0a]; [Byte.x0a]]
              Utf8.fresh []
  = [[50504%N]].
Proof. reflexivity. Qed.

(** A truncated payload between the two token frames of Scenario A. *)
Lemma malformed_frame_dropped_witness :
  parse_example (slice_from 6 (trim (marker ++ truncated_json))) = None
  /\ process_frame parse_example add_example 6 (marker ++ truncated_json)
       [placeholder 6 5]
     = (Normal tt, [placeholder 6 5])
  /\ read_loop parse_example add_example 6
       (in_two_chunks 50
          (wire ([marker ++ token_json "Hel"]
                 ++ (marker ++ truncated_json) :: [marker ++ token_json "lo"])))
       Done Utf8.fresh [] [placeholder 6 5]
     = (Normal tt,
        run_frames parse_example add_example 6
          ([marker ++ token_json "Hel"] ++ [marker ++ token_json "lo"])
          [placeholder 6 5]).
Proof.
  split; [reflexivity|].
  apply (malformed_frame_dropped parse_example add_example 6
           [marker ++ token_json "Hel"] (marker ++ truncated_json)
           [marker ++ token_json "lo"]); reflexivity.
Defined.

(** C5 as stated fails: with the clock at the same reading in the catch
    block as at the placeholder, the error message has the id of the
    placeholder. *)
Lemma failed_connection_same_id :
  sendMessage parse_example add_example [] (lit "hi") (frozen 5)
    FetchRejects []
  = (Normal tt,
     [userMessage (lit "hi") (frozen 5); placeholder 6 5; errorMessage 5 5])
  /\ id (errorMessage 5 5) = id (placeholder 6 5).
Proof. split; reflexivity. Qed.

(** Scenario C with the clock advancing. *)
Lemma failed_connection_witness :
  let clk := {| now_user := 1000; date_user := 1000; now_ai := 1000;
                date_ai := 1000; now_error := 1042; date_error := 1042 |} in
  is_empty (trim (lit "hi")) = false
  /\ sendMessage parse_example add_example [] (lit "hi") clk FetchRejects []
     = (Normal tt,
        [] ++ [userMessage (lit "hi") clk; placeholder 1001 1000;
               errorMessage 1042 1042])
  /\ text (errorMessage 1042 1042) = Str errorText
  /\ role (errorMessage 1042 1042) = assistant
  /\ (id (errorMessage 1042 1042) = 1001 <-> 1042 = 1000).
Proof.
  intros clk. split; [reflexivity|].
  apply (failed_connection parse_example add_example [] (lit "hi") clk
           FetchRejects []); [reflexivity|left; reflexivity].
Defined.

(** C6 as stated fails: a send and the failure of its request within one
    reading of the clock leave two messages with the id 6. *)
Lemma ids_collide :
  exists s,
    run parse_example add_example initial
        [Send (lit "hi") (frozen 5); Fail 0 5 5] = Some s
    /\ List.map id (transcript_of s) = [5; 6; 6]
    /\ ~ NoDup (List.map id (transcript_of s)).
Proof.
  eexists. split; [reflexivity|]. split; [reflexivity|].
  cbn. intros H. inversion H as [|? ? _ H']; subst.
  inversion H' as [|? ? Hin _]; subst. apply Hin. left. reflexivity.
Qed.

(** A send, a chunk, a failure and a second send, the clock advancing. *)
Lemma ids_unique_when_timely_witness :
  let clk := {| now_user := 1000; date_user := 1000; now_ai := 1000;
                date_ai := 1000; now_error := 0; date_error := 0 |} in
  let clk' := {| now_user := 2000; date_user := 2000; now_ai := 2001;
                 date_ai := 2001; now_error := 0; date_error := 0 |} in
  let actions :=
    [Send (lit "hi") clk;
     Chunk 0 (ascii_bytes (wire [marker ++ token_json "Hel"]));
     Fail 0 1042 1042;
     Send (lit "hi") clk'] in
  exists s,
    run parse_example add_example initial actions = Some s
    /\ List.map id (transcript_of s) = [1000; 1001; 1043; 2000; 2002]
    /\ NoDup (List.map id (transcript_of s)).
Proof.
  intros clk clk' actions. eexists.
  split; [vm_compute; reflexivity|]. split; [vm_compute; reflexivity|].
  apply (ids_unique_when_timely parse_example add_example actions);
    vm_compute; reflexivity.
Defined.

(** C7 as stated fails: without [crypto.randomUUID] and with a draw of 0
    the id is the empty string, and the next run, which reads the empty
    string from the storage, returns another id. *)
Lemma session_id_empty :
  Session.initSessionId draw_zero None = ([], Some [])
  /\ fst (Session.initSessionId_runs [draw_zero; draw_fraction] None)
     = [[]; lit "k3v9x"].
Proof. split; reflexivity. Qed.

Lemma session_id_stable_witness :
  Session.usable_draw draw_fraction = true
  /\ fst (Session.initSessionId draw_fraction None) = lit "k3v9x"
  /\ (let sid := fst (Session.initSessionId draw_fraction None) in
      sid <> []
      /\ snd (Session.initSessionId draw_fraction None) = Some sid
      /\ Session.initSessionId_runs [draw_zero; draw_fraction] (Some sid)
         = (repeat sid (List.length [draw_zero; draw_fraction]), Some sid)).
Proof.
  split; [reflexivity|]. split; [reflexivity|].
  apply (session_id_stable draw_fraction [draw_zero; draw_fraction] None).
  reflexivity.
Defined.


(** C9 as stated fails: the frame of one marker line is applied; the same
    line after a comment line is not, and neither is it before another
    line, since the text after the marker is then not JSON. *)
Lemma marker_line_not_applied :
  let line := marker ++ token_json "x" in
  process_frame parse_example add_example 6 line [placeholder 6 5]
  = (Normal tt, [with_text (placeholder 6 5) (Str (lit "x"))])
  /\ process_frame parse_example add_example 6
       (lit ": ping" ++ [10%N] ++ line) [placeholder 6 5]
     = (Normal tt, [placeholder 6 5])
  /\ process_frame parse_example add_example 6
       (line ++ [10%N] ++ lit "id: 1") [placeholder 6 5]
     = (Normal tt, [placeholder 6 5]).
Proof. split; [|split]; reflexivity. Qed.

(** The first token frame of Scenario A and, after it, the second one
    without its boundary. *)
Lemma trailing_text_discarded_witness :
  indexOf (marker ++ token_json "lo") boundary = None
  /\ sendMessage parse_example add_example [] (lit "hi") (frozen 5)
       (Body (in_two_chunks 20
                (wire [marker ++ token_json "Hel"]
                 ++ marker ++ token_json "lo")) Done) []
     = (Normal tt,
        run_frames parse_example add_example 6 [marker ++ token_json "Hel"]
          ([] ++ [userMessage (lit "hi") (frozen 5); placeholder 6 5])).
Proof.
  split; [reflexivity|].
  apply (trailing_text_discarded parse_example add_example [] (lit "hi")
           (frozen 5) _ [marker ++ token_json "Hel"]
           (marker ++ token_json "lo") []); reflexivity.
Defined.

End Runs.

(** ** Further runs *)

Section MoreRuns.
Import Examples MoreExamples.

(** The token frames of Scenario A in three cuts, one chunk empty,
    against two other cuts. *)
Lemma chunking_irrelevant_witness :
  let bytes := ascii_bytes (wire token_frames) in
  let chunks := [firstn 7 bytes; []; skipn 7 bytes] in
  let chunks' := [firstn 30 bytes; skipn 30 bytes] in
  concat chunks = concat chunks'
  /\ frames_read chunks Utf8.fresh [] = frames_read chunks' Utf8.fresh []
  /\ sendMessage parse_example add_example [] (lit "hi") (frozen 5)
       (Body chunks Done) []
     = sendMessage parse_example add_example [] (lit "hi") (frozen 5)
         (Body chunks' Done) [].
Proof.
  intros bytes chunks chunks'. split; [reflexivity|].
  apply (chunking_irrelevant parse_example add_example [] (lit "hi")
           (frozen 5) chunks chunks' Done []).
  reflexivity.
Defined.

(** A meta frame with one source, on a placeholder with some text. *)
Lemma meta_replaces_sources_witness :
  meta_sources parse_more (marker ++ meta_json) = Some (Arr [Str (lit "a")])
  /\ process_frame parse_more add_example 6 (marker ++ meta_json)
       [partial_answer]
     = (Normal tt,
        patch 6 (fun m => if truthy (Arr [Str (lit "a")])
                          then with_sources m (Arr [Str (lit "a")]) else m)
              [partial_answer])
  /\ List.map text
       (exec (process_frame parse_more add_example 6 (marker ++ meta_json))
             [partial_answer])
     = List.map text [partial_answer].
Proof.
  split; [reflexivity|].
  apply (meta_replaces_sources parse_more add_example 6 (marker ++ meta_json)
           (Arr [Str (lit "a")]) [partial_answer]).
  reflexivity.
Defined.

(** The payload [null]: the property access throws inside the try
    block. *)
Lemma unrecognized_event_ignored_witness :
  frame_event parse_more (marker ++ null_json) = Some Null
  /\ frame_event parse_more (marker ++ ping_json) = Some ping_value
  /\ process_frame parse_more add_example 6 (marker ++ null_json)
       [partial_answer]
     = (Normal tt, [partial_answer])
  /\ process_frame parse_more add_example 6 (marker ++ ping_json)
       [partial_answer]
     = (Normal tt, [partial_answer]).
Proof.
  split; [reflexivity|]. split; [reflexivity|]. split.
  - apply (unrecognized_event_ignored parse_more add_example 6
             (marker ++ null_json) Null [partial_answer]); reflexivity.
  - apply (unrecognized_event_ignored parse_more add_example 6
             (marker ++ ping_json) ping_value [partial_answer]); reflexivity.
Defined.

(** A final frame with the empty answer keeps the accumulated text. *)
Lemma hollow_event_ignored_witness :
  frame_event parse_more (marker ++ empty_final_json)
  = Some (final_value "")
  /\ process_frame parse_more add_example 6 (marker ++ empty_final_json)
       [partial_answer]
     = (Normal tt, [partial_answer]).
Proof.
  split; [reflexivity|].
  apply (hollow_event_ignored parse_more add_example 6
           (marker ++ empty_final_json) (final_value "") [partial_answer]);
    reflexivity.
Defined.

(** The frames of Scenario A for a placeholder that is not there. *)
Lemma absent_id_no_op_witness :
  exec (read_loop parse_example add_example 7
          [ascii_bytes (wire scenario_A)] Done Utf8.fresh [])
       [userMessage (lit "hi") (frozen 5); placeholder 6 5]
  = [userMessage (lit "hi") (frozen 5); placeholder 6 5].
Proof.
  apply (absent_id_no_op parse_example add_example 7
           [ascii_bytes (wire scenario_A)] Done Utf8.fresh []
           [userMessage (lit "hi") (frozen 5); placeholder 6 5]).
  reflexivity.
Defined.

(** Two placeholders and a token for each. *)
Lemma requests_commute_witness :
  let st := [placeholder 6 5; placeholder 9 8] in
  let for_6 := wire [marker ++ token_json "Hel"] in
  let for_9 := wire [marker ++ token_json "lo"] in
  6 <> 9
  /\ exec (drain parse_example add_example 6 for_6)
          (exec (drain parse_example add_example 9 for_9) st)
     = exec (drain parse_example add_example 9 for_9)
            (exec (drain parse_example add_example 6 for_6) st).
Proof.
  intros st for_6 for_9.
  assert (Hne : 6 <> 9) by lia. split; [exact Hne|].
  apply (requests_commute parse_example add_example 6 9 for_6 for_9 st Hne).
Defined.

(** A query of a space, a tab and a line feed. *)
Lemma blank_query_ignored_witness :
  let query := [32; 9; 10]%N in
  let st := [placeholder 6 5] in
  forallb is_space query = true
  /\ sendMessage parse_example add_example [] query (frozen 5)
       (Body [ascii_bytes (wire scenario_A)] Done) st
     = (Normal tt, st)
  /\ sendMessage parse_example add_example [] query (frozen 5)
       (Body [ascii_bytes (wire scenario_A)] Done) st
     = sendMessage parse_example add_example [] query (frozen 5)
         FetchRejects st.
Proof.
  intros query st. split; [reflexivity|].
  apply (blank_query_ignored parse_example add_example [] query (frozen 5)
           (Body [ascii_bytes (wire scenario_A)] Done) FetchRejects st).
  reflexivity.
Defined.

(** The first token frame of Scenario A arrives and the read rejects. *)
Lemma read_failure_keeps_progress_witness :
  let chunks := [ascii_bytes (wire [marker ++ token_json "Hel"])] in
  is_empty (trim (lit "hi")) = false
  /\ sendMessage parse_example add_example [] (lit "hi") (ticking 10)
       (Body chunks ReadRejects) []
     = (Normal tt,
        exec (sendMessage parse_example add_example [] (lit "hi")
                (ticking 10) (Body chunks Done)) []
        ++ [errorMessage 14 15]).
Proof.
  intros chunks. split; [reflexivity|].
  apply (read_failure_keeps_progress parse_example add_example []
           (lit "hi") (ticking 10) chunks []).
  reflexivity.
Defined.

(** A state with a message the render of the call does not have. *)
Lemma send_discards_state_witness :
  is_empty (trim (lit "hi")) = false
  /\ sendMessage parse_example add_example [] (lit "hi") (ticking 10)
       FetchRejects [errorMessage 3 3]
     = sendMessage parse_example add_example [] (lit "hi") (ticking 10)
         FetchRejects [].
Proof.
  split; [reflexivity|].
  apply (send_discards_state parse_example add_example [] (lit "hi")
           (ticking 10) FetchRejects [errorMessage 3 3] []).
  reflexivity.
Defined.

(** A second call, after a first one that failed, whose read rejects. *)
Lemma send_adds_two_or_three_witness :
  let messages := [userMessage (lit "hi") (ticking 10); placeholder 13 13;
                   errorMessage 14 15] in
  let chunks := [ascii_bytes (wire token_frames)] in
  let after := exec (sendMessage parse_example add_example messages
                       (lit "hi") (ticking 20) (Body chunks ReadRejects)) [] in
  is_empty (trim (lit "hi")) = false
  /\ List.map id after
     = List.map id messages ++ [20; 22 + 1] ++ [24 + 1]
  /\ List.map role after
     = List.map role messages ++ [user; assistant] ++ [assistant]
  /\ (20 <> 22 + 1 ->
      nth_error after (List.length messages)
      = Some (userMessage (lit "hi") (ticking 20))).
Proof.
  intros messages chunks after. split; [reflexivity|].
  apply (send_adds_two_or_three parse_example add_example messages
           (lit "hi") (ticking 20) (Body chunks ReadRejects) []).
  reflexivity.
Defined.

(** C1 as stated fails: a send fails within one reading of the clock, so
    that its error message has the id 6 of its placeholder, and the next
    send is made at the same reading: the tokens of its
    stream reach the earlier placeholder and the earlier error message,
    whose text grows from the fixed text to the fixed text and "Hello". *)
Lemma tokens_reach_shared_id :
  let earlier :=
    [userMessage (lit "hi") (frozen 5); placeholder 6 5; errorMessage 5 5] in
  exists after,
    sendMessage parse_example add_example earlier (lit "hi") (frozen 5)
      (Body [ascii_bytes (wire token_frames)] Done) earlier
    = (Normal tt, after)
    /\ List.map id after = [5; 6; 6; 5; 6]
    /\ List.map text earlier
       = [Str (lit "hi"); Str []; Str errorText]
    /\ List.map text after
       = [Str (lit "hi"); Str (lit "Hello"); Str (errorText ++ lit "Hello");
          Str (lit "hi"); Str (lit "Hello")].
Proof.
  intros earlier. eexists. split; [vm_compute; reflexivity|].
  split; [reflexivity|]. split; reflexivity.
Qed.

(** C2 as stated fails: a final frame whose answer is the empty string,
    after the token "Hel", leaves the text "Hel". *)
Lemma final_empty_answer_keeps_text :
  sendMessage parse_more add_example [] (lit "hi") (frozen 5)
    (Body [ascii_bytes (wire [marker ++ token_json "Hel";
                              marker ++ empty_final_json])] Done) []
  = (Normal tt,
     [userMessage (lit "hi") (frozen 5);
      {| id := 6; text := Str (lit "Hel"); role := assistant;
         sources := Arr []; timestamp := 5 |}]).
Proof. vm_compute. reflexivity. Qed.

(** Two sends whose streams interleave, each from a render of the current
    state, the first one failing. *)
Lemma play_appends_only_witness :
  let events :=
    [Act (Send (lit "hi") (ticking 10));
     Act (Chunk 0 (ascii_bytes (wire [marker ++ token_json "Hel"])));
     Rerender;
     Act (Send (lit "hi") (ticking 20));
     Act (Chunk 1 (ascii_bytes (wire [marker ++ token_json "lo"])));
     Act (Fail 0 30 31);
     Act (Finish 0)] in
  exists s more,
    play parse_example add_example opening events = Some s
    /\ current_play parse_example add_example opening events
    /\ List.map id (state_of s) = [10; 13; 20; 23; 31]
    /\ List.map slot (state_of s)
       = List.map slot (state_of opening) ++ more.
Proof.
  intros events.
  assert (Hcur : current_play parse_example add_example opening events)
    by (vm_compute; repeat split).
  destruct (play parse_example add_example opening events) as [s|] eqn:Hplay;
    [|vm_compute in Hplay; discriminate Hplay].
  destruct (play_appends_only parse_example add_example events opening s
              Hplay Hcur) as [more Hmore].
  exists s, more. split; [reflexivity|]. split; [exact Hcur|].
  split; [|exact Hmore].
  vm_compute in Hplay. injection Hplay as <-. reflexivity.
Defined.

Lemma user_messages_kept_witness :
  let events :=
    [Act (Send (lit "hi") (ticking 10));
     Act (Chunk 0 (ascii_bytes (wire [marker ++ token_json "Hel"])));
     Rerender;
     Act (Send (lit "hi") (ticking 20));
     Act (Chunk 1 (ascii_bytes (wire [marker ++ token_json "lo"])));
     Act (Fail 0 30 31);
     Act (Finish 0)] in
  exists s,
    play parse_example add_example opening events = Some s
    /\ punctual_play parse_example add_example opening events = true
    /\ current_play parse_example add_example opening events
    /\ filter is_user (state_of s)
       = [userMessage (lit "hi") (ticking 10);
          userMessage (lit "hi") (ticking 20)].
Proof.
  intros events. eexists.
  split; [vm_compute; reflexivity|]. split; [vm_compute; reflexivity|].
  split; [vm_compute; repeat split|].
  apply (user_messages_kept parse_example add_example events);
    [vm_compute; reflexivity | vm_compute; reflexivity
     | vm_compute; repeat split].
Defined.

(** A second send from the render that preceded the first one: the
    messages of the first send are gone and the ids are distinct. *)
Lemma ids_unique_with_stale_renders_witness :
  let events :=
    [Act (Send (lit "hi") (ticking 10));
     Act (Chunk 0 (ascii_bytes (wire [marker ++ token_json "Hel"])));
     Act (Send (lit "hi") (ticking 20));
     Rerender;
     Act (Fail 1 30 31)] in
  exists s,
    play parse_example add_example opening events = Some s
    /\ punctual_play parse_example add_example opening events = true
    /\ List.map id (state_of s) = [20; 23; 31]
    /\ NoDup (List.map id (state_of s)).
Proof.
  intros events. eexists.
  split; [vm_compute; reflexivity|]. split; [vm_compute; reflexivity|].
  split; [vm_compute; reflexivity|].
  apply (ids_unique_with_stale_renders parse_example add_example events);
    vm_compute; reflexivity.
Defined.

End MoreRuns.

